(** * Mailslot: a shallow embedding of [mailslot.c]

    The driver keeps a fixed table of mailslots, one per minor number.
    Every file operation is translated below as a computation over the
    driver's global state (the [instances] table and [instances_count]).
    Memory errors of the C code (an index outside an array, a copy that
    leaves its source or destination block) end the computation with a
    [Fault]; the mutex calls are recorded as a trace of guard events.
    A [printk] that prints a block as a string ([%s]) scans the block
    for its NUL; that scan is kept, as [printk_s].  What [printk] writes
    to the kernel log is left out. *)

From Stdlib Require Import ZArith Lia Strings.Byte Strings.String.
From stdpp Require Import base tactics option list numbers.

Local Open Scope Z_scope.

(** ** Constants ([#define]s of the source) *)

Definition INSTANCES : Z := 256.
Definition MESSAGE_SIZE : Z := 256.
Definition MAILSLOT_STORAGE : Z := 256.

(** ** C integer types

    [int] is 32 bits and signed, [size_t] 64 bits and unsigned,
    [ssize_t] and [loff_t] 64 bits and signed.  Arithmetic wraps. *)

Definition wrap_int (z : Z) : Z := (z + 2 ^ 31) mod 2 ^ 32 - 2 ^ 31.
Definition wrap_size (z : Z) : Z := z mod 2 ^ 64.
Definition wrap_ssize (z : Z) : Z := (z + 2 ^ 63) mod 2 ^ 64 - 2 ^ 63.

(** ** Data model *)

(** [struct message]: [content] is the block that [char *content]
    points to (its length is the size of the allocation), [len] the
    [size_t] length field. *)
Record message := Message { content : list byte; len : Z }.

(** [struct mailslot].  The [messages] array holds pointers to blocks
    allocated one by one, so no two entries alias and the array is a
    list of values.  The [mutex] field is represented by the guard
    events of the operations that take it. *)
Record mailslot := Mailslot {
  opened : Z;
  messages : list message;
  messages_count : Z
}.

(** The globals [instances] and [instances_count]. *)
Record registry := Registry {
  instances : list mailslot;
  instances_count : Z
}.

Definition set_opened (v : Z) (ms : mailslot) : mailslot :=
  {| opened := v; messages := messages ms; messages_count := messages_count ms |}.

Definition set_messages_count (v : Z) (ms : mailslot) : mailslot :=
  {| opened := opened ms; messages := messages ms; messages_count := v |}.

Definition set_messages (l : list message) (ms : mailslot) : mailslot :=
  {| opened := opened ms; messages := l; messages_count := messages_count ms |}.

(** ** Faults, guard events and the monad of driver code *)

Inductive fault :=
  | BadIndex       (* an array indexed outside its bounds *)
  | ReadOverrun    (* a copy or scan that leaves its source block *)
  | WriteOverrun.  (* a copy that leaves its destination block *)

Inductive guard_event :=
  | Acquired (minor : nat)      (* mutex_lock_interruptible returned 0 *)
  | Interrupted (minor : nat)   (* mutex_lock_interruptible returned -EINTR *)
  | Released (minor : nat).     (* mutex_unlock *)

Inductive res (A : Type) :=
  | Ok (a : A)
  | Err (f : fault).
Arguments Ok {A} a.
Arguments Err {A} f.

Inductive outcome (A : Type) :=
  | Done (a : A) (r : registry) (tr : list guard_event)
  | Fault (f : fault).
Arguments Done {A} a r tr.
Arguments Fault {A} f.

Definition kernel (A : Type) : Type := registry → outcome A.

#[global] Instance kernel_ret : MRet kernel :=
  λ A a r, Done a r [].

#[global] Instance kernel_bind : MBind kernel :=
  λ A B k m r,
    match m r with
    | Done a r1 t1 =>
        match k a r1 with
        | Done b r2 t2 => Done b r2 (t1 ++ t2)
        | Fault f => Fault f
        end
    | Fault f => Fault f
    end.

Definition lift {A : Type} (x : res A) : kernel A :=
  λ r, match x with Ok a => Done a r [] | Err f => Fault f end.

Definition emit (e : guard_event) : kernel unit :=
  λ r, Done tt r [e].

Definition get_instances_count : kernel Z :=
  λ r, Done (instances_count r) r [].

Definition put_instances_count (v : Z) : kernel unit :=
  λ r, Done tt {| instances := instances r; instances_count := v |} [].

(** [instances[minor]], dereferenced. *)
Definition instance_at (minor : nat) : kernel mailslot :=
  λ r, match instances r !! minor with
       | Some ms => Done ms r []
       | None => Fault BadIndex
       end.

(** A store through [instances[minor]->...]. *)
Definition put_instance (minor : nat) (ms : mailslot) : kernel unit :=
  λ r, Done tt {| instances := <[minor := ms]> (instances r);
                  instances_count := instances_count r |} [].

(** [ms->messages[i]] for an [int] index [i], dereferenced. *)
Definition slot_at (ms : mailslot) (i : Z) : res message :=
  if i <? 0 then Err BadIndex
  else match messages ms !! Z.to_nat i with
       | Some m => Ok m
       | None => Err BadIndex
       end.

(** ** Block operations of the C library *)

(** [memcpy(dst, src, n)]: the first [n] bytes of [dst] are replaced by
    the first [n] bytes of [src]; both blocks must hold [n] bytes. *)
Definition memcpy (dst src : list byte) (n : Z) : res (list byte) :=
  if Z.of_nat (length src) <? n then Err ReadOverrun
  else if Z.of_nat (length dst) <? n then Err WriteOverrun
  else Ok (take (Z.to_nat n) src ++ drop (Z.to_nat n) dst).

(** [strlen(s)] for a block holding the characters [s] and then a NUL. *)
Definition strlen (s : list byte) : Z := Z.of_nat (length s).

(** [strcpy(dst, s)]: the characters of [s] and the closing NUL. *)
Definition strcpy (dst s : list byte) : res (list byte) :=
  memcpy dst (s ++ [x00]) (Z.of_nat (length s) + 1).

(** Position of the first NUL of a block, if it has one. *)
Fixpoint find_nul (b : list byte) : option nat :=
  match b with
  | [] => None
  | c :: b' => if Byte.eqb c x00 then Some O else S <$> find_nul b'
  end.

(** [strcat(dst, s)]: [s] and a NUL written from the first NUL of [dst]
    on. *)
Definition strcat (dst s : list byte) : res (list byte) :=
  match find_nul dst with
  | None => Err ReadOverrun
  | Some k =>
      if (length dst <? k + length s + 1)%nat then Err WriteOverrun
      else Ok (take k dst ++ s ++ [x00] ++ drop (k + length s + 1)%nat dst)
  end.

(** [printk("... %s ...", b)]: the scan of the block [b] for the NUL
    that ends the string. *)
Definition printk_s (b : list byte) : res unit :=
  match find_nul b with
  | Some _ => Ok tt
  | None => Err ReadOverrun
  end.

(** The string literals of the source. *)
Definition newline : list byte := [x0a].
Definition err : list byte := list_byte_of_string "No message to read" ++ newline.

(** ** Module facilities *)

(** [getMessage(buff, instance, &ret_len)]: the result is the returned
    [int], the caller's block [buff] after the call and [*ret_len]. *)
Definition getMessage (buff : list byte) (instance : nat)
  : kernel (Z * list byte * Z) :=
  ms ← instance_at instance;
  let count := messages_count ms in
  if count =? 0 then
    buff' ← lift (strcpy buff err);
    mret (0, buff', strlen err)
  else
    msg ← lift (slot_at ms (wrap_int (count - 1)));
    let ret_len := len msg in
    lift (printk_s (content msg));;
    buff' ← lift (memcpy buff (content msg) (len msg));
    put_instance instance (set_messages_count (wrap_int (count - 1)) ms);;
    mret (0, buff', ret_len).

(** [pushMessage(buff, len, instance)]. *)
Definition pushMessage (buff : list byte) (len : Z) (instance : nat)
  : kernel Z :=
  ms ← instance_at instance;
  let count := messages_count ms in
  if count =? MAILSLOT_STORAGE then mret (-1)
  else
    slot ← lift (slot_at ms count);
    content' ← lift (memcpy (content slot) buff len);
    let slot' := Message content' len in
    lift (printk_s content');;
    let ms' := set_messages (<[Z.to_nat count := slot']> (messages ms)) ms in
    put_instance instance (set_messages_count (wrap_int (count + 1)) ms');;
    mret 0.

(** [clearMailslot(instance)]: logs and returns; nothing calls it. *)
Definition clearMailslot (instance : nat) : kernel Z := mret 0.

(** ** The mutex *)

(** [mutex_lock_interruptible(&instances[minor]->mutex)].  Whether the
    wait is cut short by a signal is decided outside the driver and is
    an input, [signalled]. *)
Definition EINTR : Z := 4.

Definition mutex_lock_interruptible (minor : nat) (signalled : bool) : kernel Z :=
  _ ← instance_at minor;
  if signalled then emit (Interrupted minor);; mret (- EINTR)
  else emit (Acquired minor);; mret 0.

Definition mutex_unlock (minor : nat) : kernel unit :=
  _ ← instance_at minor;
  emit (Released minor).

(** ** File operations *)

(** [mailslot_open]; [minor] is [iminor(...)] of the opened file. *)
Definition mailslot_open (minor : nat) : kernel Z :=
  count ← get_instances_count;
  if count =? INSTANCES then mret (-1)
  else
    ms ← instance_at minor;
    if opened ms =? 0 then
      put_instances_count (wrap_int (count + 1));;
      put_instance minor (set_opened 1 ms);;
      mret 0
    else mret (-1).

(** [mailslot_release]. *)
Definition mailslot_release (minor : nat) : kernel Z :=
  count ← get_instances_count;
  if count =? 0 then mret (-1)
  else
    ms ← instance_at minor;
    if opened ms =? 0 then mret (-1)
    else
      put_instances_count (wrap_int (count - 1));;
      put_instance minor (set_opened 0 ms);;
      mret 0.

(** [mailslot_read(filp, buff, len, off)]: the result is the returned
    [ssize_t], the caller's block [buff] and [*off] after the call. *)
Definition mailslot_read (minor : nat) (buff : list byte) (len : Z) (off : Z)
    (signalled : bool) : kernel (Z * list byte * Z) :=
  if off >? 0 then mret (0, buff, off)
  else
    rc ← mutex_lock_interruptible minor signalled;
    if negb (rc =? 0) then mret (-1, buff, off)
    else
      '(_, buff1, ret_len) ← getMessage buff minor;
      mutex_unlock minor;;
      lift (printk_s buff1);;
      buff2 ← lift (strcat buff1 newline);
      if off =? 0 then
        let off' := wrap_ssize (wrap_size (off + wrap_size (ret_len + 1))) in
        mret (off', buff2, off')
      else mret (0, buff2, off).

(** [mailslot_write(filp, buff, len, off)]: [buff] is the caller's
    block, [len] the byte count the caller passed. *)
Definition mailslot_write (minor : nat) (buff : list byte) (len : Z)
    (signalled : bool) : kernel Z :=
  rc ← mutex_lock_interruptible minor signalled;
  if negb (rc =? 0) then mret (-1)
  else
    pushMessage buff len minor;;
    mutex_unlock minor;;
    mret (wrap_ssize len).

(** ** Module initialisation *)

(** [kmalloc(size, GFP_KERNEL)]: a block of [size] bytes holding
    whatever the allocator left there, [junk]. *)
Definition kmalloc (size : Z) (junk : list byte) : list byte :=
  resize (Z.to_nat size) x00 junk.

(** The slots [init_module] allocates for mailslot [i].  The message
    structs and their content blocks are not cleared: [junk i j] is what
    slot [j] holds at first. *)
Definition init_messages (junk : nat → nat → message) (i : nat) : list message :=
  (λ j, Message (kmalloc MESSAGE_SIZE (content (junk i j))) (len (junk i j)))
    <$> seq 0 (Z.to_nat MAILSLOT_STORAGE).

(** The state [init_module] builds when every allocation succeeds: the
    mailslot structs are cleared, the counter is 0. *)
Definition init_module (junk : nat → nat → message) : registry :=
  {| instances :=
       (λ i, {| opened := 0; messages := init_messages junk i;
                messages_count := 0 |})
         <$> seq 0 (Z.to_nat INSTANCES);
     instances_count := 0 |}.

(** ** Sequences of calls *)

(** One call of a file operation, as the VFS layer issues it. *)
Inductive request :=
  | OpOpen (minor : nat)
  | OpRelease (minor : nat)
  | OpRead (minor : nat) (buff : list byte) (len off : Z) (signalled : bool)
  | OpWrite (minor : nat) (buff : list byte) (len : Z) (signalled : bool).

(** The value the call returns to its caller. *)
Definition serve (q : request) : kernel Z :=
  match q with
  | OpOpen minor => mailslot_open minor
  | OpRelease minor => mailslot_release minor
  | OpRead minor buff len off signalled =>
      '(rc, _, _) ← mailslot_read minor buff len off signalled; mret rc
  | OpWrite minor buff len signalled => mailslot_write minor buff len signalled
  end.

(** The calls of [qs] one after the other; the result lists what each
    returned. *)
Fixpoint run (qs : list request) : kernel (list Z) :=
  match qs with
  | [] => mret []
  | q :: qs' => rc ← serve q; rcs ← run qs'; mret (rc :: rcs)
  end.

(** [k] calls of [pushMessage] with the same message. *)
Fixpoint push_n (k : nat) (buff : list byte) (len : Z) (instance : nat)
  : kernel (list Z) :=
  match k with
  | O => mret []
  | S k' => rc ← pushMessage buff len instance;
            rcs ← push_n k' buff len instance;
            mret (rc :: rcs)
  end.

(** ** Observations on a registry *)

(** The [opened] flag of every mailslot. *)
Definition flags (r : registry) : list Z := opened <$> instances r.

(** How many flags of a list are set (nonzero). *)
Fixpoint set_total (fl : list Z) : Z :=
  match fl with
  | [] => 0
  | o :: fl' => (if o =? 0 then 0 else 1) + set_total fl'
  end.

(** How many mailslots have their [opened] flag set. *)
Definition opened_total (r : registry) : Z := set_total (flags r).

(** The registry invariant: the counter agrees with the flags. *)
Definition count_matches_flags (r : registry) : Prop :=
  instances_count r = opened_total r.

(** The stored messages of every mailslot: slots and occupancy. *)
Definition stored (r : registry) : list (list message * Z) :=
  (λ ms, (messages ms, messages_count ms)) <$> instances r.

(** Every slot of the mailslot owns a block of [MESSAGE_SIZE] bytes, and
    there are [MAILSLOT_STORAGE] slots, as [init_module] allocates them. *)
Definition allocated (ms : mailslot) : Prop :=
  length (messages ms) = Z.to_nat MAILSLOT_STORAGE ∧
  Forall (λ m, length (content m) = Z.to_nat MESSAGE_SIZE) (messages ms).

(** ** The mailslot as a stack of messages *)

(** The bytes of a stored message. *)
Definition payload (m : message) : list byte :=
  take (Z.to_nat (len m)) (content m).

(** The messages a mailslot holds, oldest first: the payloads of the
    slots below [messages_count]. *)
Definition stack_of (ms : mailslot) : list (list byte) :=
  payload <$> take (Z.to_nat (messages_count ms)) (messages ms).

(** The block [b] holds a NUL: a scan of it for the end of a string
    stays inside it. *)
Definition terminated (b : list byte) : Prop := find_nul b ≠ None.

(** Mailslot [i] of [r] is as [init_module] allocated it and holds the
    messages [s], each one within its block. *)
Definition holds (r : registry) (i : nat) (s : list (list byte)) : Prop :=
  ∃ ms, instances r !! i = Some ms ∧ allocated ms ∧
        0 ≤ messages_count ms ≤ MAILSLOT_STORAGE ∧
        Forall (λ m, 0 ≤ len m ≤ MESSAGE_SIZE)
          (take (Z.to_nat (messages_count ms)) (messages ms)) ∧
        stack_of ms = s.

(** The blocks in use of mailslot [i] of [r], those of the slots from
    [k] up to the occupancy, each hold a NUL.  With [k] at 0 these are
    all the blocks in use; with [k] the number of messages but one, the
    block of the message on top. *)
Definition sealed (r : registry) (i : nat) (k : nat) : Prop :=
  ∀ ms j slot,
    instances r !! i = Some ms →
    (k ≤ j < Z.to_nat (messages_count ms))%nat →
    messages ms !! j = Some slot →
    terminated (content slot).

(** Mailslot [i] of [r] can take the [n] bytes of [buff]: written over
    the block of any slot that is free, they leave a block that holds a
    NUL (the message has one, or the bytes behind it do). *)
Definition takes (r : registry) (i : nat) (buff : list byte) (n : Z) : Prop :=
  ∀ ms j slot,
    instances r !! i = Some ms →
    (Z.to_nat (messages_count ms) ≤ j)%nat →
    messages ms !! j = Some slot →
    terminated (take (Z.to_nat n) buff ++ drop (Z.to_nat n) (content slot)).

(** Every free block of mailslot [i] of [r] holds a NUL at offset [k]
    or later. *)
Definition padded (r : registry) (i : nat) (k : nat) : Prop :=
  ∀ ms j slot,
    instances r !! i = Some ms →
    (Z.to_nat (messages_count ms) ≤ j)%nat →
    messages ms !! j = Some slot →
    terminated (drop k (content slot)).

(** ** States and sessions for examples *)

(** A state to run examples in: freshly initialised, with empty blocks
    left by the allocator. *)
Definition blank : nat → nat → message := λ _ _, Message [] 0.
Definition booted : registry := init_module blank.
Definition booted_mailslot (i : nat) : mailslot :=
  {| opened := 0; messages := init_messages blank i; messages_count := 0 |}.

(** The booted registry with the occupancy of mailslot 0 at its limit, as
    after [MAILSLOT_STORAGE] writes of empty messages. *)
Definition filled : registry :=
  {| instances :=
       <[0%nat := set_messages_count MAILSLOT_STORAGE (booted_mailslot 0)]>
         (instances booted);
     instances_count := 0 |}.

(** The booted registry after mailslot 0 was opened and "hi" written. *)
Definition opened_with_hi : registry :=
  {| instances :=
       <[0%nat := {| opened := 1;
                     messages := <[0%nat := Message (x68 :: x69 :: replicate 254 x00) 2]>
                                   (init_messages blank 0);
                     messages_count := 1 |}]> (instances booted);
     instances_count := 1 |}.

(** A one-mailslot registry holding "hi" and "yo" in its two slots, with
    occupancy [c]. *)
Definition two_messages (c : Z) : registry :=
  {| instances := [ {| opened := 1;
                       messages := [Message [x68; x69; x00] 2;
                                    Message [x79; x6f; x00] 2];
                       messages_count := c |} ];
     instances_count := 1 |}.

(** Three messages in, three reads out, on mailslot [i]; [ubuf] is the
    block every read is handed.  The result lists what the pushes
    returned and what the pops handed back. *)
Definition abc_session (ubuf : list byte) (i : nat)
  : kernel (list Z * list (Z * list byte * Z)) :=
  p1 ← pushMessage (list_byte_of_string "a") 1 i;
  p2 ← pushMessage (list_byte_of_string "b") 1 i;
  p3 ← pushMessage (list_byte_of_string "c") 1 i;
  g1 ← getMessage ubuf i;
  g2 ← getMessage ubuf i;
  g3 ← getMessage ubuf i;
  mret ([p1; p2; p3], [g1; g2; g3]).

(** The same through the file operations, on mailslot 0: three writes,
    then three reads at offset 0 into [ubuf]. *)
Definition abc_file_session (ubuf : list byte)
  : kernel (list Z * list (Z * list byte * Z)) :=
  w1 ← mailslot_write 0 (list_byte_of_string "a") 1 false;
  w2 ← mailslot_write 0 (list_byte_of_string "b") 1 false;
  w3 ← mailslot_write 0 (list_byte_of_string "c") 1 false;
  r1 ← mailslot_read 0 ubuf (Z.of_nat (length ubuf)) 0 false;
  r2 ← mailslot_read 0 ubuf (Z.of_nat (length ubuf)) 0 false;
  r3 ← mailslot_read 0 ubuf (Z.of_nat (length ubuf)) 0 false;
  mret ([w1; w2; w3], [r1; r2; r3]).

(** ** Notions for the properties of whole runs *)

(** The minor number a call addresses. *)
Definition minor_of (q : request) : nat :=
  match q with
  | OpOpen m | OpRelease m | OpRead m _ _ _ _ | OpWrite m _ _ _ => m
  end.

(** A mailslot with its slots as [init_module] allocated them and an
    occupancy between 0 and [MAILSLOT_STORAGE]. *)
Definition sane_mailslot (ms : mailslot) : Prop :=
  allocated ms ∧ 0 ≤ messages_count ms ≤ MAILSLOT_STORAGE.

(** A table of [INSTANCES] such mailslots. *)
Definition sane (r : registry) : Prop :=
  length (instances r) = Z.to_nat INSTANCES ∧
  Forall sane_mailslot (instances r).

(** The guard along a trace.  [held] is the minor number whose mutex is
    taken, if any; the result is the same after the events of [tr], or
    [None] when the trace takes a mutex while one is taken, or releases
    one that is not the taken one. *)
Fixpoint guard_after (held : option nat) (tr : list guard_event)
  : option (option nat) :=
  match tr with
  | [] => Some held
  | Acquired m :: tr' =>
      match held with
      | None => guard_after (Some m) tr'
      | Some _ => None
      end
  | Interrupted _ :: tr' => guard_after held tr'
  | Released m :: tr' =>
      match held with
      | Some m' => if (m =? m')%nat then guard_after None tr' else None
      | None => None
      end
  end.

(** The messages of [msgs] pushed one after the other, each with its own
    length. *)
Fixpoint push_all (msgs : list (list byte)) (i : nat) : kernel (list Z) :=
  match msgs with
  | [] => mret []
  | m :: msgs' =>
      rc ← pushMessage m (Z.of_nat (length m)) i;
      rcs ← push_all msgs' i;
      mret (rc :: rcs)
  end.

(** [k] pops, each into the block [ubuf]. *)
Fixpoint pop_n (k : nat) (ubuf : list byte) (i : nat)
  : kernel (list (Z * list byte * Z)) :=
  match k with
  | O => mret []
  | S k' => g ← getMessage ubuf i; gs ← pop_n k' ubuf i; mret (g :: gs)
  end.

(** All of [msgs] in, as many pops out. *)
Definition lifo_session (msgs : list (list byte)) (ubuf : list byte) (i : nat)
  : kernel (list Z * list (Z * list byte * Z)) :=
  rcs ← push_all msgs i;
  gs ← pop_n (length msgs) ubuf i;
  mret (rcs, gs).

(** What a pop hands back for the message [m]: success, [m] at the
    start of the block, its length. *)
Definition popped (ubuf m : list byte) : Z * list byte * Z :=
  (0, m ++ drop (length m) ubuf, Z.of_nat (length m)).

(** One write call per message of [msgs], each with its own length, to
    minor number [i]. *)
Definition writes (i : nat) (msgs : list (list byte)) : list request :=
  (λ m, OpWrite i m (Z.of_nat (length m)) false) <$> msgs.

(** The byte count of a write is a [size_t]: it is not negative. *)
Definition size_t_len (q : request) : bool :=
  match q with
  | OpWrite _ _ n _ => 0 <=? n
  | _ => true
  end.

(** ** What a caller can tell *)

(** What a computation shows its caller: the result and the guard
    events, or the fault; not the registry. *)
Definition shown {A : Type} (o : outcome A) : (A * list guard_event) + fault :=
  match o with
  | Done a _ tr => inl (a, tr)
  | Fault f => inr f
  end.

(** Two slots with the same stored message: same length field, same
    payload, and a NUL in each block.  The bytes of the blocks beyond
    the length may differ. *)
Definition slot_alike (x y : message) : Prop :=
  len x = len y ∧ payload x = payload y ∧
  terminated (content x) ∧ terminated (content y).

(** A write whose message holds a NUL among the bytes it passes; the
    other calls pass no message. *)
Definition nul_in_write (q : request) : Prop :=
  match q with
  | OpWrite _ buff n _ => terminated (take (Z.to_nat n) buff)
  | _ => True
  end.

(** Two mailslots with the same flag, the same occupancy and the same
    stored messages. *)
Definition mailslot_alike (a b : mailslot) : Prop :=
  opened a = opened b ∧ messages_count a = messages_count b ∧
  Forall2 slot_alike
    (take (Z.to_nat (messages_count a)) (messages a))
    (take (Z.to_nat (messages_count a)) (messages b)).

(** Two sane registries with the same counter and alike mailslots. *)
Definition alike (r1 r2 : registry) : Prop :=
  sane r1 ∧ sane r2 ∧ instances_count r1 = instances_count r2 ∧
  Forall2 mailslot_alike (instances r1) (instances r2).

(** Two outcomes that show the same and end in alike registries. *)
Definition outcome_alike {A : Type} (o1 o2 : outcome A) : Prop :=
  match o1, o2 with
  | Done a1 r1 t1, Done a2 r2 t2 => a1 = a2 ∧ t1 = t2 ∧ alike r1 r2
  | Fault f1, Fault f2 => f1 = f2
  | _, _ => False
  end.

(** * Properties *)

(** ** Tactics for running driver code *)

Ltac kunfold :=
  unfold mbind, kernel_bind, mret, kernel_ret, lift, emit, instance_at,
    put_instance, get_instances_count, put_instances_count.

Ltac kunfold_in H :=
  unfold mbind, kernel_bind, mret, kernel_ret, lift, emit, instance_at,
    put_instance, get_instances_count, put_instances_count in H.

Lemma bind_unfold {A B : Type} (m : kernel A) (k : A → kernel B) r :
  (m ≫= k) r =
    match m r with
    | Done a r1 t1 =>
        match k a r1 with
        | Done b r2 t2 => Done b r2 (t1 ++ t2)
        | Fault f => Fault f
        end
    | Fault f => Fault f
    end.
Proof. reflexivity. Qed.

Lemma mutex_lock_interruptible_unfold minor signalled r :
  mutex_lock_interruptible minor signalled r =
    match instances r !! minor with
    | None => Fault BadIndex
    | Some _ =>
        if signalled then Done (- EINTR) r [Interrupted minor]
        else Done 0 r [Acquired minor]
    end.
Proof.
  unfold mutex_lock_interruptible. kunfold.
  destruct (instances r !! minor); [|reflexivity].
  destruct signalled; reflexivity.
Qed.

Lemma mutex_unlock_unfold minor r :
  mutex_unlock minor r =
    match instances r !! minor with
    | None => Fault BadIndex
    | Some _ => Done tt r [Released minor]
    end.
Proof.
  unfold mutex_unlock. kunfold.
  destruct (instances r !! minor); reflexivity.
Qed.

(** ** C integers *)

Lemma wrap_int_id z : - 2 ^ 31 ≤ z < 2 ^ 31 → wrap_int z = z.
Proof. intros H. unfold wrap_int. rewrite Z.mod_small; lia. Qed.

Lemma wrap_size_id z : 0 ≤ z < 2 ^ 64 → wrap_size z = z.
Proof. intros H. unfold wrap_size. apply Z.mod_small; lia. Qed.

Lemma wrap_ssize_id z : - 2 ^ 63 ≤ z < 2 ^ 63 → wrap_ssize z = z.
Proof. intros H. unfold wrap_ssize. rewrite Z.mod_small; lia. Qed.

(** ** Lists of mailslots *)

Lemma fmap_insert_same {A B : Type} (f : A → B) (l : list A) i x y :
  l !! i = Some x → f y = f x → f <$> <[i := y]> l = f <$> l.
Proof.
  intros Hl Hf. rewrite list_fmap_insert, Hf.
  apply list_insert_id. rewrite list_lookup_fmap, Hl. reflexivity.
Qed.

Lemma set_total_bounds fl : 0 ≤ set_total fl ≤ Z.of_nat (length fl).
Proof.
  induction fl as [|o fl IH]; simpl; [lia|].
  destruct (o =? 0); lia.
Qed.

Lemma set_total_raise fl i :
  fl !! i = Some 0 → set_total (<[i := 1]> fl) = set_total fl + 1.
Proof.
  revert i. induction fl as [|o fl IH]; intros [|i] H; simpl in *; try discriminate.
  - injection H as ->. simpl. lia.
  - rewrite (IH i H). lia.
Qed.

Lemma set_total_lower fl i o :
  fl !! i = Some o → o ≠ 0 → set_total (<[i := 0]> fl) = set_total fl - 1.
Proof.
  revert i. induction fl as [|o' fl IH]; intros [|i] H Ho; simpl in *; try discriminate.
  - injection H as ->. destruct (Z.eqb_spec o 0); [contradiction|]. simpl. lia.
  - rewrite (IH i H Ho). lia.
Qed.

(** ** Blocks that hold a NUL *)

Lemma printk_s_terminated b : terminated b → printk_s b = Ok tt.
Proof.
  unfold terminated, printk_s. destruct (find_nul b); [reflexivity|congruence].
Qed.

Lemma printk_s_unterminated b : ¬ terminated b → printk_s b = Err ReadOverrun.
Proof.
  unfold terminated, printk_s. destruct (find_nul b); [|reflexivity].
  intros H. exfalso. apply H. discriminate.
Qed.

Lemma printk_s_Ok b u : printk_s b = Ok u → terminated b.
Proof.
  unfold terminated, printk_s. destruct (find_nul b); [discriminate|discriminate].
Qed.

Lemma terminated_dec b : terminated b ∨ ¬ terminated b.
Proof.
  unfold terminated. destruct (find_nul b); [left; discriminate|right; auto].
Qed.

Lemma terminated_elem_of b : terminated b ↔ x00 ∈ b.
Proof.
  unfold terminated. induction b as [|c b IH]; cbn [find_nul].
  - split; [congruence|]. intros H. inversion H.
  - rewrite elem_of_cons. destruct (Byte.eqb c x00) eqn:E.
    + apply Byte.byte_dec_bl in E. subst c.
      split; [intros _; left; reflexivity|discriminate].
    + apply Byte.eqb_false in E. rewrite <- IH. split.
      * intros H. right. intros Hn. apply H. rewrite Hn. reflexivity.
      * intros [H|H] Hn; [congruence|]. apply H.
        destruct (find_nul b); [discriminate Hn|reflexivity].
Qed.

Lemma terminated_app a b : terminated (a ++ b) ↔ terminated a ∨ terminated b.
Proof. rewrite !terminated_elem_of. apply elem_of_app. Qed.

Lemma terminated_replicate k : (0 < k)%nat → terminated (replicate k x00).
Proof. destruct k; [lia|]. intros _. discriminate. Qed.

(** ** The module facilities, case by case *)

Lemma pushMessage_full buff len i r ms :
  instances r !! i = Some ms → messages_count ms = MAILSLOT_STORAGE →
  pushMessage buff len i r = Done (-1) r [].
Proof.
  intros Hi Hc. unfold pushMessage. kunfold. rewrite Hi, Hc. reflexivity.
Qed.

Lemma pushMessage_room buff len i r ms slot :
  instances r !! i = Some ms →
  0 ≤ messages_count ms < MAILSLOT_STORAGE →
  messages ms !! Z.to_nat (messages_count ms) = Some slot →
  len ≤ Z.of_nat (length buff) → len ≤ Z.of_nat (length (content slot)) →
  terminated (take (Z.to_nat len) buff ++ drop (Z.to_nat len) (content slot)) →
  pushMessage buff len i r =
    Done 0
      {| instances :=
           <[i := {| opened := opened ms;
                     messages :=
                       <[Z.to_nat (messages_count ms) :=
                           Message (take (Z.to_nat len) buff ++
                                    drop (Z.to_nat len) (content slot)) len]>
                         (messages ms);
                     messages_count := messages_count ms + 1 |}]> (instances r);
         instances_count := instances_count r |} [].
Proof.
  intros Hi Hc Hs Hb Hd Hnul. unfold pushMessage. kunfold. rewrite Hi.
  unfold MAILSLOT_STORAGE in *.
  destruct (Z.eqb_spec (messages_count ms) 256); [lia|].
  unfold slot_at. destruct (Z.ltb_spec (messages_count ms) 0); [lia|].
  rewrite Hs. unfold memcpy.
  destruct (Z.ltb_spec (Z.of_nat (length buff)) len); [lia|].
  destruct (Z.ltb_spec (Z.of_nat (length (content slot))) len); [lia|].
  rewrite (printk_s_terminated _ Hnul).
  simpl. rewrite wrap_int_id by lia. reflexivity.
Qed.

(** The push whose stored block holds no NUL: the scan of [printk]
    leaves the block. *)
Lemma pushMessage_unterminated buff len i r ms slot :
  instances r !! i = Some ms →
  0 ≤ messages_count ms → messages_count ms ≠ MAILSLOT_STORAGE →
  messages ms !! Z.to_nat (messages_count ms) = Some slot →
  len ≤ Z.of_nat (length buff) → len ≤ Z.of_nat (length (content slot)) →
  ¬ terminated (take (Z.to_nat len) buff ++ drop (Z.to_nat len) (content slot)) →
  pushMessage buff len i r = Fault ReadOverrun.
Proof.
  intros Hi Hc Hn Hs Hb Hd Hnul. unfold pushMessage. kunfold. rewrite Hi.
  destruct (Z.eqb_spec (messages_count ms) MAILSLOT_STORAGE); [contradiction|].
  unfold slot_at. destruct (Z.ltb_spec (messages_count ms) 0); [lia|].
  rewrite Hs. unfold memcpy.
  destruct (Z.ltb_spec (Z.of_nat (length buff)) len); [lia|].
  destruct (Z.ltb_spec (Z.of_nat (length (content slot))) len); [lia|].
  rewrite (printk_s_unterminated _ Hnul). reflexivity.
Qed.

Lemma pushMessage_overrun buff len i r ms slot :
  instances r !! i = Some ms →
  0 ≤ messages_count ms → messages_count ms ≠ MAILSLOT_STORAGE →
  messages ms !! Z.to_nat (messages_count ms) = Some slot →
  len ≤ Z.of_nat (length buff) → Z.of_nat (length (content slot)) < len →
  pushMessage buff len i r = Fault WriteOverrun.
Proof.
  intros Hi Hc Hn Hs Hb Hd. unfold pushMessage. kunfold. rewrite Hi.
  destruct (Z.eqb_spec (messages_count ms) MAILSLOT_STORAGE); [contradiction|].
  unfold slot_at. destruct (Z.ltb_spec (messages_count ms) 0); [lia|].
  rewrite Hs. unfold memcpy.
  destruct (Z.ltb_spec (Z.of_nat (length buff)) len); [lia|].
  destruct (Z.ltb_spec (Z.of_nat (length (content slot))) len); [|lia].
  reflexivity.
Qed.

Lemma getMessage_empty buff i r ms :
  instances r !! i = Some ms → messages_count ms = 0 →
  (20 ≤ length buff)%nat →
  getMessage buff i r = Done (0, err ++ x00 :: drop 20 buff, 19) r [].
Proof.
  intros Hi Hc Hb. unfold getMessage. kunfold. rewrite Hi, Hc. simpl.
  unfold strcpy, memcpy. simpl length.
  destruct (Z.ltb_spec (Z.of_nat (length buff)) (Z.of_nat 19 + 1)); [lia|].
  reflexivity.
Qed.

Lemma getMessage_top buff i r ms msg :
  instances r !! i = Some ms →
  0 < messages_count ms < 2 ^ 31 →
  messages ms !! Z.to_nat (messages_count ms - 1) = Some msg →
  len msg ≤ Z.of_nat (length (content msg)) →
  len msg ≤ Z.of_nat (length buff) →
  terminated (content msg) →
  getMessage buff i r =
    Done (0, take (Z.to_nat (len msg)) (content msg) ++
             drop (Z.to_nat (len msg)) buff, len msg)
      {| instances :=
           <[i := set_messages_count (messages_count ms - 1) ms]> (instances r);
         instances_count := instances_count r |} [].
Proof.
  intros Hi Hc Hs Hd Hb Hnul. unfold getMessage. kunfold. rewrite Hi.
  destruct (Z.eqb_spec (messages_count ms) 0); [lia|].
  rewrite wrap_int_id by lia.
  unfold slot_at. destruct (Z.ltb_spec (messages_count ms - 1) 0); [lia|].
  rewrite Hs, (printk_s_terminated _ Hnul). unfold memcpy.
  destruct (Z.ltb_spec (Z.of_nat (length (content msg))) (len msg)); [lia|].
  destruct (Z.ltb_spec (Z.of_nat (length buff)) (len msg)); [lia|].
  reflexivity.
Qed.

(** What a call of a module facility can have changed when it returns:
    no guard event, no [opened] flag, not the counter. *)
Lemma pushMessage_frame buff len i r v r' tr :
  pushMessage buff len i r = Done v r' tr →
  tr = [] ∧ flags r' = flags r ∧ instances_count r' = instances_count r.
Proof.
  unfold pushMessage, flags. kunfold. intros H.
  destruct (instances r !! i) as [ms|] eqn:Hi; [|discriminate].
  destruct (messages_count ms =? MAILSLOT_STORAGE).
  - injection H as <- <- <-. auto.
  - destruct (slot_at ms (messages_count ms)) as [slot|]; [|discriminate].
    destruct (memcpy (content slot) buff len) as [c|]; [|discriminate].
    destruct (printk_s c); [|discriminate].
    injection H as <- <- <-. simpl. split_and!; try reflexivity.
    eapply fmap_insert_same; [exact Hi|reflexivity].
Qed.

Lemma getMessage_frame buff i r v r' tr :
  getMessage buff i r = Done v r' tr →
  tr = [] ∧ flags r' = flags r ∧ instances_count r' = instances_count r.
Proof.
  unfold getMessage, flags. kunfold. intros H.
  destruct (instances r !! i) as [ms|] eqn:Hi; [|discriminate].
  destruct (messages_count ms =? 0).
  - destruct (strcpy buff err); [|discriminate].
    injection H as <- <- <-. auto.
  - destruct (slot_at ms _) as [msg|]; [|discriminate].
    destruct (printk_s (content msg)); [|discriminate].
    destruct (memcpy buff (content msg) (len msg)) as [c|]; [|discriminate].
    injection H as <- <- <-. simpl. split_and!; try reflexivity.
    eapply fmap_insert_same; [exact Hi|reflexivity].
Qed.

Lemma flags_lookup r r' i ms :
  flags r' = flags r → instances r !! i = Some ms →
  ∃ ms', instances r' !! i = Some ms' ∧ opened ms' = opened ms.
Proof.
  unfold flags. intros Hf Hi.
  assert (H : (opened <$> instances r') !! i = Some (opened ms))
    by (rewrite Hf, list_lookup_fmap, Hi; reflexivity).
  rewrite list_lookup_fmap in H.
  destruct (instances r' !! i) as [ms'|]; [|discriminate].
  injection H as H. eauto.
Qed.

(** ** The file operations, case by case *)

Lemma mailslot_open_exhausted minor r :
  instances_count r = INSTANCES → mailslot_open minor r = Done (-1) r [].
Proof. intros Hc. unfold mailslot_open. kunfold. rewrite Hc. reflexivity. Qed.

Lemma mailslot_open_opened minor r ms :
  instances r !! minor = Some ms → opened ms ≠ 0 →
  mailslot_open minor r = Done (-1) r [].
Proof.
  intros Hi Ho. unfold mailslot_open. kunfold.
  destruct (instances_count r =? INSTANCES); [reflexivity|].
  rewrite Hi. destruct (Z.eqb_spec (opened ms) 0); [contradiction|reflexivity].
Qed.

Lemma mailslot_open_closed minor r ms :
  instances r !! minor = Some ms → opened ms = 0 →
  instances_count r ≠ INSTANCES →
  mailslot_open minor r =
    Done 0 {| instances := <[minor := set_opened 1 ms]> (instances r);
              instances_count := wrap_int (instances_count r + 1) |} [].
Proof.
  intros Hi Ho Hc. unfold mailslot_open. kunfold.
  destruct (Z.eqb_spec (instances_count r) INSTANCES); [contradiction|].
  rewrite Hi, Ho. reflexivity.
Qed.

Lemma mailslot_release_none minor r :
  instances_count r = 0 → mailslot_release minor r = Done (-1) r [].
Proof. intros Hc. unfold mailslot_release. kunfold. rewrite Hc. reflexivity. Qed.

Lemma mailslot_release_closed minor r ms :
  instances r !! minor = Some ms → opened ms = 0 →
  mailslot_release minor r = Done (-1) r [].
Proof.
  intros Hi Ho. unfold mailslot_release. kunfold.
  destruct (instances_count r =? 0); [reflexivity|].
  rewrite Hi, Ho. reflexivity.
Qed.

Lemma mailslot_release_opened minor r ms :
  instances r !! minor = Some ms → opened ms ≠ 0 →
  instances_count r ≠ 0 →
  mailslot_release minor r =
    Done 0 {| instances := <[minor := set_opened 0 ms]> (instances r);
              instances_count := wrap_int (instances_count r - 1) |} [].
Proof.
  intros Hi Ho Hc. unfold mailslot_release. kunfold.
  destruct (Z.eqb_spec (instances_count r) 0); [contradiction|].
  rewrite Hi. destruct (Z.eqb_spec (opened ms) 0); [contradiction|reflexivity].
Qed.

(** Every way [mailslot_open] returns. *)
Lemma mailslot_open_cases minor r v r' tr :
  mailslot_open minor r = Done v r' tr →
  tr = [] ∧
  ((v = -1 ∧ r' = r) ∨
   (v = 0 ∧ ∃ ms, instances r !! minor = Some ms ∧ opened ms = 0 ∧
      instances_count r ≠ INSTANCES ∧
      r' = {| instances := <[minor := set_opened 1 ms]> (instances r);
              instances_count := wrap_int (instances_count r + 1) |})).
Proof.
  unfold mailslot_open. kunfold. intros H.
  destruct (Z.eqb_spec (instances_count r) INSTANCES).
  - injection H as <- <- <-. auto.
  - destruct (instances r !! minor) as [ms|] eqn:Hi; [|discriminate].
    destruct (Z.eqb_spec (opened ms) 0).
    + injection H as <- <- <-. split; [reflexivity|]. right. eauto 10.
    + injection H as <- <- <-. auto.
Qed.

(** Every way [mailslot_release] returns. *)
Lemma mailslot_release_cases minor r v r' tr :
  mailslot_release minor r = Done v r' tr →
  tr = [] ∧
  ((v = -1 ∧ r' = r) ∨
   (v = 0 ∧ ∃ ms, instances r !! minor = Some ms ∧ opened ms ≠ 0 ∧
      instances_count r ≠ 0 ∧
      r' = {| instances := <[minor := set_opened 0 ms]> (instances r);
              instances_count := wrap_int (instances_count r - 1) |})).
Proof.
  unfold mailslot_release. kunfold. intros H.
  destruct (Z.eqb_spec (instances_count r) 0).
  - injection H as <- <- <-. auto.
  - destruct (instances r !! minor) as [ms|] eqn:Hi; [|discriminate].
    destruct (Z.eqb_spec (opened ms) 0).
    + injection H as <- <- <-. auto.
    + injection H as <- <- <-. split; [reflexivity|]. right. eauto 10.
Qed.

(** Open and release return for every minor number of the table. *)
Lemma mailslot_open_returns minor r :
  (minor < length (instances r))%nat →
  ∃ v r', mailslot_open minor r = Done v r' [].
Proof.
  intros Hlt. destruct (lookup_lt_is_Some_2 _ _ Hlt) as [ms Hi].
  unfold mailslot_open. kunfold.
  destruct (instances_count r =? INSTANCES); [eauto|]. rewrite Hi.
  destruct (opened ms =? 0); eauto.
Qed.

Lemma mailslot_release_returns minor r :
  (minor < length (instances r))%nat →
  ∃ v r', mailslot_release minor r = Done v r' [].
Proof.
  intros Hlt. destruct (lookup_lt_is_Some_2 _ _ Hlt) as [ms Hi].
  unfold mailslot_release. kunfold.
  destruct (instances_count r =? 0); [eauto|]. rewrite Hi.
  destruct (opened ms =? 0); eauto.
Qed.

(** [mailslot_write] around [pushMessage]. *)
Lemma mailslot_write_unfold minor buff len signalled r :
  mailslot_write minor buff len signalled r =
    match instances r !! minor with
    | None => Fault BadIndex
    | Some _ =>
        if signalled then Done (-1) r [Interrupted minor]
        else match pushMessage buff len minor r with
             | Done _ r' _ => Done (wrap_ssize len) r' [Acquired minor; Released minor]
             | Fault f => Fault f
             end
    end.
Proof.
  unfold mailslot_write.
  rewrite bind_unfold, mutex_lock_interruptible_unfold.
  destruct (instances r !! minor) as [ms|] eqn:Hi; [|reflexivity].
  destruct signalled; [reflexivity|]. cbn [Z.eqb negb].
  rewrite bind_unfold.
  destruct (pushMessage buff len minor r) as [v r' tr|f] eqn:Hp; [|reflexivity].
  destruct (pushMessage_frame _ _ _ _ _ _ _ Hp) as (-> & Hf & _).
  rewrite bind_unfold, mutex_unlock_unfold.
  destruct (flags_lookup _ _ _ _ Hf Hi) as (ms' & -> & _). reflexivity.
Qed.

(** [mailslot_read] around [getMessage], for a call at offset 0 or
    below. *)
Lemma mailslot_read_unfold minor buff len off signalled r :
  off ≤ 0 →
  mailslot_read minor buff len off signalled r =
    match instances r !! minor with
    | None => Fault BadIndex
    | Some _ =>
        if signalled then Done (-1, buff, off) r [Interrupted minor]
        else match getMessage buff minor r with
             | Done (_, buff1, ret_len) r' _ =>
                 match strcat buff1 newline with
                 | Ok buff2 =>
                     let off' := wrap_ssize (wrap_size (off + wrap_size (ret_len + 1))) in
                     Done (if off =? 0 then (off', buff2, off') else (0, buff2, off))
                       r' [Acquired minor; Released minor]
                 | Err f => Fault f
                 end
             | Fault f => Fault f
             end
    end.
Proof.
  intros Hoff. unfold mailslot_read.
  destruct (Z.gtb_spec off 0); [lia|].
  rewrite bind_unfold, mutex_lock_interruptible_unfold.
  destruct (instances r !! minor) as [ms|] eqn:Hi; [|reflexivity].
  destruct signalled; [reflexivity|]. cbn [Z.eqb negb].
  rewrite bind_unfold.
  destruct (getMessage buff minor r) as [[[v buff1] ret_len] r' tr|f] eqn:Hg;
    [|reflexivity].
  destruct (getMessage_frame _ _ _ _ _ _ Hg) as (-> & Hf & _).
  rewrite bind_unfold, mutex_unlock_unfold.
  destruct (flags_lookup _ _ _ _ Hf Hi) as (ms' & -> & _).
  kunfold. unfold printk_s, strcat.
  destruct (find_nul buff1); [|reflexivity].
  destruct (_ <? _)%nat; [reflexivity|].
  destruct (off =? 0); reflexivity.
Qed.

Lemma mailslot_write_frame minor buff len signalled r v r' tr :
  mailslot_write minor buff len signalled r = Done v r' tr →
  flags r' = flags r ∧ instances_count r' = instances_count r.
Proof.
  rewrite mailslot_write_unfold. intros H.
  destruct (instances r !! minor); [|discriminate].
  destruct signalled; [injection H as <- <- <-; auto|].
  destruct (pushMessage buff len minor r) as [v0 r0 tr0|] eqn:Hp; [|discriminate].
  injection H as <- <- <-.
  destruct (pushMessage_frame _ _ _ _ _ _ _ Hp) as (_ & Hf & Hc). auto.
Qed.

Lemma mailslot_read_frame minor buff len off signalled r v r' tr :
  mailslot_read minor buff len off signalled r = Done v r' tr →
  flags r' = flags r ∧ instances_count r' = instances_count r.
Proof.
  destruct (Z.gtb_spec off 0) as [Hoff|Hoff].
  - unfold mailslot_read. destruct (Z.gtb_spec off 0); [|lia].
    intros Hr. injection Hr as <- <- <-. auto.
  - rewrite mailslot_read_unfold by lia. intros H.
    destruct (instances r !! minor); [|discriminate].
    destruct signalled; [injection H as <- <- <-; auto|].
    destruct (getMessage buff minor r) as [[[v0 b0] l0] r0 tr0|] eqn:Hg;
      [|discriminate].
    destruct (strcat b0 newline); [|discriminate].
    injection H as <- <- <-.
    destruct (getMessage_frame _ _ _ _ _ _ Hg) as (_ & Hf & Hc). auto.
Qed.

(** ** The state after [init_module] *)

Section Init.
Variable junk : nat → nat → message.

Lemma init_module_lookup (i : nat) :
  (i < Z.to_nat INSTANCES)%nat →
  instances (init_module junk) !! i =
    Some {| opened := 0; messages := init_messages junk i; messages_count := 0 |}.
Proof.
  intros Hi. unfold init_module. cbn [instances].
  rewrite list_lookup_fmap, lookup_seq_lt by exact Hi. reflexivity.
Qed.

Lemma init_module_length :
  length (instances (init_module junk)) = Z.to_nat INSTANCES.
Proof.
  unfold init_module. cbn [instances].
  rewrite length_fmap, length_seq. reflexivity.
Qed.

Lemma init_module_allocated (i : nat) :
  allocated {| opened := 0; messages := init_messages junk i; messages_count := 0 |}.
Proof.
  unfold allocated, init_messages. cbn [messages]. split.
  - rewrite length_fmap, length_seq. reflexivity.
  - apply Forall_fmap, Forall_forall. intros j _. cbn [content].
    unfold kmalloc. apply length_resize.
Qed.

Lemma init_module_flags :
  flags (init_module junk) = replicate (Z.to_nat INSTANCES) 0.
Proof.
  unfold flags, init_module. cbn [instances].
  transitivity (replicate (length (seq 0 (Z.to_nat INSTANCES))) 0);
    [|rewrite length_seq; reflexivity].
  induction (seq 0 (Z.to_nat INSTANCES)) as [|i l IH]; [reflexivity|].
  cbn [fmap list_fmap length replicate opened]. f_equal. exact IH.
Qed.

Lemma init_module_count_matches_flags :
  count_matches_flags (init_module junk).
Proof.
  unfold count_matches_flags, opened_total. rewrite init_module_flags.
  cbn [init_module instances_count].
  induction (Z.to_nat INSTANCES) as [|n IH]; [reflexivity|].
  cbn [replicate set_total Z.eqb]. lia.
Qed.
End Init.

Lemma booted_lookup (i : nat) :
  (i < 256)%nat → instances booted !! i = Some (booted_mailslot i).
Proof. apply init_module_lookup. Qed.

(** ** Filling a mailslot *)

Lemma allocated_slot ms n :
  allocated ms → 0 ≤ n < MAILSLOT_STORAGE →
  ∃ slot, messages ms !! Z.to_nat n = Some slot ∧
          length (content slot) = Z.to_nat MESSAGE_SIZE.
Proof.
  intros [Hl Hall] Hn.
  destruct (lookup_lt_is_Some_2 (messages ms) (Z.to_nat n)) as [slot Hs].
  { rewrite Hl. unfold MAILSLOT_STORAGE in *. lia. }
  exists slot. split; [exact Hs|].
  rewrite Forall_lookup in Hall. exact (Hall _ _ Hs).
Qed.

Lemma allocated_store ms n buff len slot opn cnt :
  allocated ms → messages ms !! n = Some slot →
  len ≤ Z.of_nat (length buff) → len ≤ MESSAGE_SIZE →
  allocated
    {| opened := opn;
       messages :=
         <[n := Message (take (Z.to_nat len) buff ++
                         drop (Z.to_nat len) (content slot)) len]> (messages ms);
       messages_count := cnt |}.
Proof.
  intros [Hl Hall] Hs Hb Hm. unfold allocated. cbn [messages]. split.
  - rewrite length_insert. exact Hl.
  - apply Forall_insert; [exact Hall|]. cbn [content].
    rewrite Forall_lookup in Hall. pose proof (Hall _ _ Hs) as Hc.
    cbn beta in Hc. unfold MESSAGE_SIZE in *.
    rewrite length_app, length_take, length_drop. lia.
Qed.

(** [k] pushes into a mailslot that has room for them all, and whose free
    blocks hold a NUL once the message is in, succeed and raise the
    occupancy by [k]; the flags and the counter stay. *)
Lemma push_n_fill k : ∀ buff len i r ms,
  instances r !! i = Some ms → allocated ms →
  0 ≤ messages_count ms →
  messages_count ms + Z.of_nat k ≤ MAILSLOT_STORAGE →
  len ≤ Z.of_nat (length buff) → len ≤ MESSAGE_SIZE →
  takes r i buff len →
  ∃ r' ms',
    push_n k buff len i r = Done (replicate k 0) r' [] ∧
    instances r' !! i = Some ms' ∧ allocated ms' ∧
    messages_count ms' = messages_count ms + Z.of_nat k ∧
    opened ms' = opened ms ∧
    instances_count r' = instances_count r ∧
    length (instances r') = length (instances r).
Proof.
  induction k as [|k IH]; intros buff len i r ms Hi Ha H0 Hk Hb Hm Ht.
  - exists r, ms. cbn [push_n replicate]. split_and!; auto. lia.
  - destruct (allocated_slot ms (messages_count ms) Ha) as (slot & Hs & Hc);
      [lia|].
    cbn [push_n]. rewrite bind_unfold.
    rewrite (pushMessage_room buff len i r ms slot Hi) by
      (try exact Hs; try (apply (Ht ms _ slot Hi (Nat.le_refl _) Hs));
       unfold MESSAGE_SIZE in *; lia).
    set (ms1 := Mailslot _ _ _). set (r1 := Registry _ _).
    assert (Hi1 : instances r1 !! i = Some ms1).
    { apply list_lookup_insert_eq. eapply lookup_lt_Some; exact Hi. }
    destruct (IH buff len i r1 ms1 Hi1) as (r' & ms' & Hp & Hi' & Ha' & Hc' & Ho' & Hn' & Hl');
      try assumption.
    { apply allocated_store; assumption. }
    { subst ms1. cbn [messages_count]. lia. }
    { subst ms1. cbn [messages_count]. lia. }
    { intros ms2 j slot2 Hi2 Hj Hs2. rewrite Hi1 in Hi2. injection Hi2 as <-.
      subst ms1. cbn [messages_count messages] in Hj, Hs2.
      rewrite list_lookup_insert_ne in Hs2 by lia.
      apply (Ht ms j slot2 Hi); [lia|exact Hs2]. }
    exists r', ms'. rewrite bind_unfold, Hp. kunfold. cbn [replicate app].
    split_and!; auto.
    + rewrite Hc'. subst ms1. cbn [messages_count]. lia.
    + rewrite Hl'. subst r1. cbn [instances]. apply length_insert.
Qed.

(** ** Mailslots that can take a message *)

(** A message that holds a NUL can be taken by any mailslot. *)
Lemma takes_terminated r i buff n :
  terminated (take (Z.to_nat n) buff) → takes r i buff n.
Proof.
  intros H ms j slot _ _ _. apply terminated_app. left. exact H.
Qed.

(** A message of at most [k] bytes can be taken when the free blocks
    hold a NUL from offset [k] on. *)
Lemma takes_padded r i k buff n :
  padded r i k → (Z.to_nat n ≤ k)%nat → takes r i buff n.
Proof.
  intros Hp Hn ms j slot Hi Hj Hs. apply terminated_app. right.
  pose proof (Hp ms j slot Hi Hj Hs) as Hk.
  replace (drop (Z.to_nat n) (content slot))
    with (take (k - Z.to_nat n) (drop (Z.to_nat n) (content slot)) ++
          drop k (content slot)).
  - apply terminated_app. right. exact Hk.
  - replace (drop k (content slot))
      with (drop (k - Z.to_nat n) (drop (Z.to_nat n) (content slot)))
      by (rewrite drop_drop; f_equal; lia).
    apply take_drop.
Qed.

(** The blocks of the booted module are cleared: every one holds a NUL
    from any offset below [MESSAGE_SIZE] on. *)
Lemma booted_padded i k : (k < Z.to_nat MESSAGE_SIZE)%nat → padded booted i k.
Proof.
  intros Hk ms j slot Hi Hj Hs.
  assert (Hlt : (i < Z.to_nat INSTANCES)%nat).
  { apply lookup_lt_Some in Hi. unfold booted in Hi.
    rewrite init_module_length in Hi. exact Hi. }
  unfold booted in Hi. rewrite init_module_lookup in Hi by exact Hlt.
  injection Hi as <-. cbn [messages] in Hs. unfold init_messages in Hs.
  rewrite list_lookup_fmap in Hs.
  destruct (seq 0 (Z.to_nat MAILSLOT_STORAGE) !! j); [|discriminate].
  injection Hs as <-. cbn [content blank]. unfold kmalloc.
  rewrite resize_nil, drop_replicate. apply terminated_replicate. lia.
Qed.

Lemma booted_takes i buff n :
  (Z.to_nat n < Z.to_nat MESSAGE_SIZE)%nat → takes booted i buff n.
Proof.
  intros Hn. apply (takes_padded booted i (Z.to_nat n)); [|lia].
  apply booted_padded. exact Hn.
Qed.

(** ** Claims *)

(** C4. A push into a full mailslot is turned down and changes nothing:
    when [messages_count] equals [MAILSLOT_STORAGE], [pushMessage]
    returns -1 and the whole registry (occupancy, every slot's content
    and length) is the one it was called in.  In particular, after
    [MAILSLOT_STORAGE] pushes into a mailslot of the freshly initialised
    module, all accepted, one more push is turned down in this way (the
    pushes are accepted when the message holds a NUL or the bytes the
    allocator left behind it do, so that the scan of [printk] stays in
    the block). *)
Theorem push_on_full_rejected_unchanged :
  (∀ buff len instance r ms,
     instances r !! instance = Some ms →
     messages_count ms = MAILSLOT_STORAGE →
     pushMessage buff len instance r = Done (-1) r []) ∧
  (∀ junk buff len instance,
     (instance < Z.to_nat INSTANCES)%nat →
     len ≤ Z.of_nat (length buff) → len ≤ MESSAGE_SIZE →
     takes (init_module junk) instance buff len →
     ∃ r',
       push_n (Z.to_nat MAILSLOT_STORAGE) buff len instance (init_module junk)
         = Done (replicate (Z.to_nat MAILSLOT_STORAGE) 0) r' [] ∧
       pushMessage buff len instance r' = Done (-1) r' []).
Proof.
  split.
  - intros buff len instance r ms. apply pushMessage_full.
  - intros junk buff len instance Hi Hb Hm Ht.
    destruct (push_n_fill (Z.to_nat MAILSLOT_STORAGE) buff len instance
                (init_module junk) _ (init_module_lookup junk instance Hi))
      as (r' & ms' & Hp & Hi' & _ & Hc' & _); try assumption.
    { apply init_module_allocated. }
    { cbn [messages_count]. lia. }
    { cbn [messages_count]. unfold MAILSLOT_STORAGE. lia. }
    exists r'. split; [exact Hp|].
    apply (pushMessage_full _ _ _ _ ms' Hi').
    rewrite Hc'. cbn [messages_count]. unfold MAILSLOT_STORAGE. lia.
Qed.

Lemma push_on_full_rejected_unchanged_witness :
  pushMessage [x61] 1 0 filled = Done (-1) filled [] ∧
  ∃ r', push_n (Z.to_nat MAILSLOT_STORAGE) [x61] 1 0 booted
          = Done (replicate (Z.to_nat MAILSLOT_STORAGE) 0) r' [] ∧
        pushMessage [x61] 1 0 r' = Done (-1) r' [].
Proof.
  destruct push_on_full_rejected_unchanged as [H1 H2]. split.
  - apply (H1 [x61] 1 0%nat filled
             (set_messages_count MAILSLOT_STORAGE (booted_mailslot 0)));
      reflexivity.
  - apply (H2 blank [x61] 1 0%nat);
      [vm_compute; lia | simpl; lia | vm_compute; discriminate
      | apply booted_takes; vm_compute; lia].
Defined.

Lemma strcat_after_err buff :
  (21 ≤ length buff)%nat →
  strcat (err ++ x00 :: drop 20 buff) newline =
    Ok (err ++ newline ++ x00 :: drop 21 buff).
Proof.
  intros Hb. unfold strcat.
  assert (Hn : find_nul (err ++ x00 :: drop 20 buff) = Some 19%nat)
    by reflexivity.
  rewrite Hn.
  destruct (Nat.ltb_spec (length (err ++ x00 :: drop 20 buff))
              (19 + length newline + 1)) as [Hlt|Hge].
  - rewrite length_app in Hlt. cbn [length] in Hlt.
    rewrite length_drop in Hlt. simpl in Hlt. lia.
  - f_equal. change 19%nat with (length err) at 1.
    rewrite take_app_length. do 2 f_equal.
    change (19 + length newline + 1)%nat with (length err + 2)%nat.
    rewrite drop_app_add' by reflexivity.
    cbn [drop app]. rewrite drop_drop. reflexivity.
Qed.

(** C5. A pop from an empty mailslot is not an error: when
    [messages_count] is 0, [getMessage] returns 0 (success), hands back
    the placeholder text "No message to read" (with its newline and NUL)
    and its length, and leaves the registry, so the occupancy too, as it
    was.  [mailslot_read] at offset 0 passes this on with one more
    newline and reports the 20 bytes. *)
Theorem pop_on_empty_gives_placeholder (buff : list byte) (instance : nat)
    (r : registry) (ms : mailslot) :
  instances r !! instance = Some ms →
  messages_count ms = 0 →
  ((20 ≤ length buff)%nat →
   getMessage buff instance r =
     Done (0, err ++ x00 :: drop 20 buff, strlen err) r []) ∧
  ((21 ≤ length buff)%nat → ∀ len,
   mailslot_read instance buff len 0 false r =
     Done (20, err ++ newline ++ x00 :: drop 21 buff, 20) r
       [Acquired instance; Released instance]).
Proof.
  intros Hi Hc. split.
  - intros Hb. apply (getMessage_empty buff instance r ms Hi Hc Hb).
  - intros Hb len.
    rewrite mailslot_read_unfold, Hi by lia.
    rewrite (getMessage_empty buff instance r ms Hi Hc) by lia.
    rewrite strcat_after_err by exact Hb. reflexivity.
Qed.

Lemma pop_on_empty_gives_placeholder_witness :
  getMessage (replicate 32 x00) 0 booted =
    Done (0, err ++ x00 :: replicate 12 x00, 19) booted [] ∧
  mailslot_read 0 (replicate 32 x00) 32 0 false booted =
    Done (20, err ++ newline ++ x00 :: replicate 11 x00, 20) booted
      [Acquired 0%nat; Released 0%nat].
Proof.
  destruct (pop_on_empty_gives_placeholder (replicate 32 x00) 0 booted
              (booted_mailslot 0)) as [H1 H2]; [reflexivity..|].
  split; [apply H1 | apply H2]; vm_compute; lia.
Defined.

(** C10. A read at a file offset above zero returns 0 at once: no guard
    event is recorded (the mutex is not taken), the registry (every
    [opened] flag, every occupancy, every slot) is unchanged, so no
    message is consumed, and the caller's block and offset are as they
    were.  This holds for any minor number, valid or not. *)
Theorem read_at_positive_offset_is_noop (minor : nat) (buff : list byte)
    (len off : Z) (signalled : bool) (r : registry) :
  0 < off →
  mailslot_read minor buff len off signalled r = Done (0, buff, off) r [].
Proof.
  intros Hoff. unfold mailslot_read.
  destruct (Z.gtb_spec off 0); [reflexivity|lia].
Qed.

Lemma read_at_positive_offset_is_noop_witness :
  mailslot_read 0 [x00; x00] 2 3 false booted = Done (0, [x00; x00], 3) booted [].
Proof. apply read_at_positive_offset_is_noop. lia. Defined.

(** C2. [mailslot_open] on a mailslot whose [opened] flag is set fails:
    it returns -1, the driver's failure value, and changes nothing.  On
    a mailslot whose flag is clear, and when the counter check passes,
    it sets the flag to 1, adds one to [instances_count] and returns 0.
    So whatever a first open of a minor number did, a second open right
    after it fails. *)
Theorem open_of_opened_fails (minor : nat) (r : registry) (ms : mailslot) :
  instances r !! minor = Some ms →
  (opened ms ≠ 0 → mailslot_open minor r = Done (-1) r []) ∧
  (opened ms = 0 → instances_count r ≠ INSTANCES →
   - 2 ^ 31 ≤ instances_count r < 2 ^ 31 - 1 →
   mailslot_open minor r =
     Done 0 {| instances := <[minor := set_opened 1 ms]> (instances r);
               instances_count := instances_count r + 1 |} []) ∧
  (∃ v r', mailslot_open minor r = Done v r' [] ∧
           mailslot_open minor r' = Done (-1) r' []).
Proof.
  intros Hi. split_and!.
  - apply mailslot_open_opened. exact Hi.
  - intros Ho Hc Hr. rewrite (mailslot_open_closed minor r ms Hi Ho Hc).
    rewrite wrap_int_id by lia. reflexivity.
  - destruct (Z.eq_dec (instances_count r) INSTANCES) as [Hc|Hc].
    { exists (-1), r. split; apply mailslot_open_exhausted; exact Hc. }
    destruct (Z.eq_dec (opened ms) 0) as [Ho|Ho].
    + eexists 0, _. split; [apply (mailslot_open_closed minor r ms Hi Ho Hc)|].
      apply (mailslot_open_opened _ _ (set_opened 1 ms)); [|simpl; discriminate].
      cbn [instances]. apply list_lookup_insert_eq.
      eapply lookup_lt_Some; exact Hi.
    + exists (-1), r. split; apply (mailslot_open_opened minor r ms Hi Ho).
Qed.

Lemma open_of_opened_fails_witness :
  mailslot_open 0 booted =
    Done 0 {| instances := <[0%nat := set_opened 1 (booted_mailslot 0)]>
                             (instances booted);
              instances_count := 1 |} [] ∧
  ∃ v r', mailslot_open 0 booted = Done v r' [] ∧
          mailslot_open 0 r' = Done (-1) r' [].
Proof.
  destruct (open_of_opened_fails 0 booted (booted_mailslot 0)) as (_ & H2 & H3);
    [reflexivity|].
  split; [|exact H3].
  apply H2; [reflexivity | discriminate | unfold booted; cbn [init_module instances_count]; lia].
Defined.

(** ** Sequences of calls and the flags *)

Lemma serve_read_inv minor buff len off signalled r rc r' tr :
  serve (OpRead minor buff len off signalled) r = Done rc r' tr →
  ∃ v, mailslot_read minor buff len off signalled r = Done v r' tr.
Proof.
  cbn [serve]. rewrite bind_unfold. intros H.
  destruct (mailslot_read minor buff len off signalled r)
    as [[[rc0 b0] o0] r0 t0|] eqn:Hr; [|discriminate].
  kunfold_in H. injection H as <- <- <-. rewrite app_nil_r. eauto.
Qed.

Lemma run_cons_inv q qs r rcs r' tr :
  run (q :: qs) r = Done rcs r' tr →
  ∃ rc rcs' r1 t1 t2,
    serve q r = Done rc r1 t1 ∧ run qs r1 = Done rcs' r' t2 ∧
    rcs = rc :: rcs' ∧ tr = t1 ++ t2.
Proof.
  cbn [run]. rewrite bind_unfold. intros H.
  destruct (serve q r) as [rc r1 t1|] eqn:Hs; [|discriminate].
  rewrite bind_unfold in H.
  destruct (run qs r1) as [rcs' r2 t2|] eqn:Hr; [|discriminate].
  kunfold_in H. injection H as <- <- <-. rewrite app_nil_r.
  exists rc, rcs', r1, t1, t2. split_and!; auto.
Qed.

Lemma flags_after_store r minor ms v c :
  flags {| instances := <[minor := set_opened v ms]> (instances r);
           instances_count := c |}
  = <[minor := v]> (flags r).
Proof. unfold flags. cbn [instances]. apply list_fmap_insert. Qed.

(** A call leaves a clear flag clear, unless it is a successful open of
    that very mailslot. *)
Lemma serve_flag_stays_clear q r rc r' tr minor :
  serve q r = Done rc r' tr →
  flags r !! minor = Some 0 →
  (q = OpOpen minor → rc ≠ 0) →
  flags r' !! minor = Some 0.
Proof.
  intros H Hf Hq. destruct q as [m|m|m buff len off sg|m buff len sg].
  - cbn [serve] in H.
    destruct (mailslot_open_cases _ _ _ _ _ H)
      as (_ & [[_ ->]|(-> & ms & Hi & Ho & Hc & ->)]); [exact Hf|].
    unfold flags in *. cbn [instances]. rewrite list_fmap_insert.
    destruct (decide (m = minor)) as [->|Hne].
    + exfalso. apply Hq; reflexivity.
    + rewrite list_lookup_insert_ne by exact Hne. exact Hf.
  - cbn [serve] in H.
    destruct (mailslot_release_cases _ _ _ _ _ H)
      as (_ & [[_ ->]|(-> & ms & Hi & Ho & Hc & ->)]); [exact Hf|].
    unfold flags in *. cbn [instances]. rewrite list_fmap_insert.
    destruct (decide (m = minor)) as [->|Hne].
    + apply list_lookup_insert_eq. eapply lookup_lt_Some; exact Hf.
    + rewrite list_lookup_insert_ne by exact Hne. exact Hf.
  - destruct (serve_read_inv _ _ _ _ _ _ _ _ _ H) as [v Hr].
    destruct (mailslot_read_frame _ _ _ _ _ _ _ _ _ Hr) as [-> _]. exact Hf.
  - cbn [serve] in H.
    destruct (mailslot_write_frame _ _ _ _ _ _ _ _ H) as [-> _]. exact Hf.
Qed.

Lemma run_flag_stays_clear minor qs : ∀ r rcs r' tr,
  run qs r = Done rcs r' tr →
  flags r !! minor = Some 0 →
  (∀ k, qs !! k = Some (OpOpen minor) → rcs !! k ≠ Some 0) →
  flags r' !! minor = Some 0.
Proof.
  induction qs as [|q qs IH]; intros r rcs r' tr H Hf Hq.
  - cbn [run] in H. kunfold_in H. injection H as <- <- <-. exact Hf.
  - destruct (run_cons_inv _ _ _ _ _ _ H)
      as (rc & rcs' & r1 & t1 & t2 & Hs & Hr & -> & ->).
    apply (IH r1 rcs' r' t2 Hr).
    + apply (serve_flag_stays_clear q r rc r1 t1 minor Hs Hf).
      intros -> ->. apply (Hq 0%nat); reflexivity.
    + intros k Hk. apply (Hq (S k)). exact Hk.
Qed.

(** C3. [mailslot_release] on a mailslot whose [opened] flag is clear,
    or when [instances_count] is 0, fails: it returns -1 and changes
    nothing.  Otherwise it clears the flag, takes one from
    [instances_count] and returns 0.  So after any calls on the freshly
    initialised module among which no open of minor number [minor]
    succeeded, a release of [minor] fails. *)
Theorem release_of_closed_fails :
  (∀ minor r ms,
     instances r !! minor = Some ms →
     (opened ms = 0 ∨ instances_count r = 0 →
      mailslot_release minor r = Done (-1) r []) ∧
     (opened ms ≠ 0 → instances_count r ≠ 0 →
      - 2 ^ 31 < instances_count r < 2 ^ 31 →
      mailslot_release minor r =
        Done 0 {| instances := <[minor := set_opened 0 ms]> (instances r);
                  instances_count := instances_count r - 1 |} [])) ∧
  (∀ junk minor qs rcs r tr,
     (minor < Z.to_nat INSTANCES)%nat →
     run qs (init_module junk) = Done rcs r tr →
     (∀ k, qs !! k = Some (OpOpen minor) → rcs !! k ≠ Some 0) →
     mailslot_release minor r = Done (-1) r []).
Proof.
  split.
  - intros minor r ms Hi. split.
    + intros [Ho|Hc].
      * apply (mailslot_release_closed minor r ms Hi Ho).
      * apply mailslot_release_none. exact Hc.
    + intros Ho Hc Hr.
      rewrite (mailslot_release_opened minor r ms Hi Ho Hc).
      rewrite wrap_int_id by lia. reflexivity.
  - intros junk minor qs rcs r tr Hm Hrun Hq.
    assert (Hf : flags r !! minor = Some 0).
    { apply (run_flag_stays_clear minor qs _ _ _ _ Hrun); [|exact Hq].
      rewrite init_module_flags. apply lookup_replicate_2. exact Hm. }
    unfold flags in Hf. rewrite list_lookup_fmap in Hf.
    destruct (instances r !! minor) as [ms|] eqn:Hi; [|discriminate].
    injection Hf as Ho. apply (mailslot_release_closed minor r ms Hi Ho).
Qed.

Lemma release_of_closed_fails_witness :
  mailslot_release 0 booted = Done (-1) booted [] ∧
  mailslot_release 0
    {| instances := <[0%nat := set_opened 1 (booted_mailslot 0)]> (instances booted);
       instances_count := 1 |} = Done 0 booted [] ∧
  ∃ r tr,
    run [OpOpen 1; OpWrite 0 [x61] 1 false; OpRelease 1] booted = Done [0; 1; 0] r tr ∧
    mailslot_release 0 r = Done (-1) r [].
Proof.
  destruct release_of_closed_fails as [H1 H2]. split_and!.
  - apply (H1 0%nat booted (booted_mailslot 0)); [reflexivity|].
    left. reflexivity.
  - destruct (H1 0%nat
                {| instances := <[0%nat := set_opened 1 (booted_mailslot 0)]>
                                  (instances booted);
                   instances_count := 1 |}
                (set_opened 1 (booted_mailslot 0))) as [_ H]; [reflexivity|].
    rewrite H; [reflexivity | discriminate | discriminate | cbn [instances_count]; lia].
  - assert (Hrun : ∃ r tr,
      run [OpOpen 1; OpWrite 0 [x61] 1 false; OpRelease 1] booted = Done [0; 1; 0] r tr)
      by (eexists _, _; reflexivity).
    destruct Hrun as (r & tr & Hrun). exists r, tr. split; [exact Hrun|].
    apply (H2 blank 0%nat _ _ _ _ ltac:(vm_compute; lia) Hrun).
    intros [|[|[|k]]] Hk; discriminate.
Defined.

(** ** The counter and the flags *)

Lemma flags_length r : length (flags r) = length (instances r).
Proof. unfold flags. apply length_fmap. Qed.

(** One call keeps the table at its size and the counter in step with
    the flags. *)
Lemma serve_keeps_count q r rc r' tr :
  length (instances r) = Z.to_nat INSTANCES →
  count_matches_flags r →
  serve q r = Done rc r' tr →
  length (instances r') = Z.to_nat INSTANCES ∧ count_matches_flags r'.
Proof.
  unfold count_matches_flags, opened_total. intros Hl Hinv H.
  pose proof (set_total_bounds (flags r)) as Hb.
  rewrite flags_length, Hl in Hb. unfold INSTANCES in *.
  destruct q as [m|m|m buff len off sg|m buff len sg].
  - cbn [serve] in H.
    destruct (mailslot_open_cases _ _ _ _ _ H)
      as (_ & [[_ ->]|(-> & ms & Hi & Ho & Hc & ->)]); [auto|].
    rewrite flags_after_store. cbn [instances instances_count].
    rewrite length_insert. split; [exact Hl|].
    rewrite set_total_raise.
    + rewrite wrap_int_id by lia. lia.
    + unfold flags. rewrite list_lookup_fmap, Hi. cbn. rewrite Ho. reflexivity.
  - cbn [serve] in H.
    destruct (mailslot_release_cases _ _ _ _ _ H)
      as (_ & [[_ ->]|(-> & ms & Hi & Ho & Hc & ->)]); [auto|].
    rewrite flags_after_store. cbn [instances instances_count].
    rewrite length_insert. split; [exact Hl|].
    rewrite (set_total_lower _ _ (opened ms)).
    + rewrite wrap_int_id by lia. lia.
    + unfold flags. rewrite list_lookup_fmap, Hi. reflexivity.
    + exact Ho.
  - destruct (serve_read_inv _ _ _ _ _ _ _ _ _ H) as [v Hr].
    destruct (mailslot_read_frame _ _ _ _ _ _ _ _ _ Hr) as [Hf Hc].
    rewrite <- flags_length, Hf, flags_length, Hc. auto.
  - cbn [serve] in H.
    destruct (mailslot_write_frame _ _ _ _ _ _ _ _ H) as [Hf Hc].
    rewrite <- flags_length, Hf, flags_length, Hc. auto.
Qed.

Lemma run_keeps_count qs : ∀ r rcs r' tr,
  length (instances r) = Z.to_nat INSTANCES →
  count_matches_flags r →
  run qs r = Done rcs r' tr →
  length (instances r') = Z.to_nat INSTANCES ∧ count_matches_flags r'.
Proof.
  induction qs as [|q qs IH]; intros r rcs r' tr Hl Hinv H.
  - cbn [run] in H. kunfold_in H. injection H as <- <- <-. auto.
  - destruct (run_cons_inv _ _ _ _ _ _ H)
      as (rc & rcs' & r1 & t1 & t2 & Hs & Hr & -> & ->).
    destruct (serve_keeps_count q r rc r1 t1 Hl Hinv Hs) as [Hl1 Hinv1].
    exact (IH r1 rcs' r' t2 Hl1 Hinv1 Hr).
Qed.

(** C6. The registry invariant: [instances_count] equals the number of
    mailslots whose [opened] flag is set.  It holds in the state
    [init_module] builds, every open, release, read and write that
    returns keeps it (on a table of [INSTANCES] mailslots), and so it
    holds after every sequence of such calls on the initialised module.
    Open and release, the two calls that touch the counter and the
    flags, return for every minor number of the table. *)
Theorem counter_equals_opened_mailslots :
  (∀ junk, count_matches_flags (init_module junk)) ∧
  (∀ q r rc r' tr,
     length (instances r) = Z.to_nat INSTANCES →
     count_matches_flags r →
     serve q r = Done rc r' tr →
     count_matches_flags r') ∧
  (∀ junk qs rcs r tr,
     run qs (init_module junk) = Done rcs r tr →
     instances_count r = opened_total r) ∧
  (∀ minor r,
     (minor < length (instances r))%nat →
     (∃ v r', mailslot_open minor r = Done v r' []) ∧
     (∃ v r', mailslot_release minor r = Done v r' [])).
Proof.
  split_and!.
  - apply init_module_count_matches_flags.
  - intros q r rc r' tr Hl Hinv H.
    apply (serve_keeps_count q r rc r' tr Hl Hinv H).
  - intros junk qs rcs r tr H.
    apply (run_keeps_count qs (init_module junk) rcs r tr);
      [apply init_module_length | apply init_module_count_matches_flags
      | exact H].
  - intros minor r Hlt. split.
    + apply mailslot_open_returns. exact Hlt.
    + apply mailslot_release_returns. exact Hlt.
Qed.

Lemma counter_equals_opened_mailslots_witness :
  count_matches_flags
    {| instances := <[3%nat := set_opened 1 (booted_mailslot 3)]> (instances booted);
       instances_count := 1 |} ∧
  ∃ r tr,
    run [OpOpen 3; OpOpen 3; OpWrite 3 [x61] 1 false; OpOpen 5; OpRelease 3;
         OpRead 5 (replicate 32 x00) 32 0 false] booted
      = Done [0; -1; 1; 0; 0; 20] r tr ∧
    instances_count r = 1 ∧ opened_total r = 1.
Proof.
  destruct counter_equals_opened_mailslots as (_ & H2 & H3 & _). split.
  - apply (H2 (OpOpen 3) booted 0 _ []);
      [apply init_module_length | apply init_module_count_matches_flags
      | reflexivity].
  - assert (Hrun : ∃ r tr,
      run [OpOpen 3; OpOpen 3; OpWrite 3 [x61] 1 false; OpOpen 5; OpRelease 3;
           OpRead 5 (replicate 32 x00) 32 0 false] booted
        = Done [0; -1; 1; 0; 0; 20] r tr ∧ instances_count r = 1)
      by (eexists _, _; split; reflexivity).
    destruct Hrun as (r & tr & Hrun & Hc). exists r, tr.
    split_and!; [exact Hrun | exact Hc |].
    rewrite <- (H3 blank _ _ _ _ Hrun). exact Hc.
Defined.

(** ** Pushes and pops on the stack of messages *)

Lemma holds_length r i s :
  holds r i s → Z.of_nat (length s) ≤ MAILSLOT_STORAGE.
Proof.
  intros (ms & _ & [Hl _] & Hc & _ & <-). unfold stack_of.
  rewrite length_fmap, length_take. lia.
Qed.

Lemma holds_init junk i :
  (i < Z.to_nat INSTANCES)%nat → holds (init_module junk) i [].
Proof.
  intros Hi. eexists. split; [apply init_module_lookup; exact Hi|].
  split; [apply init_module_allocated|].
  cbn [messages_count]. unfold MAILSLOT_STORAGE.
  split_and!; [lia | lia | apply Forall_nil_2 | reflexivity].
Qed.

Lemma sealed_init junk i k : sealed (init_module junk) i k.
Proof.
  intros ms j slot Hi Hj Hs.
  assert (Hlt : (i < Z.to_nat INSTANCES)%nat).
  { apply lookup_lt_Some in Hi. rewrite init_module_length in Hi. exact Hi. }
  rewrite init_module_lookup in Hi by exact Hlt.
  apply (inj Some) in Hi. subst ms. cbn [messages_count] in Hj. lia.
Qed.

Lemma sealed_mono r i k k' : (k ≤ k')%nat → sealed r i k → sealed r i k'.
Proof.
  intros Hk H ms j slot Hi Hj Hs. apply (H ms j slot Hi); [lia|exact Hs].
Qed.

(** The blocks above the messages held are not in use. *)
Lemma holds_sealed_top r i s : holds r i s → sealed r i (length s).
Proof.
  intros (ms & Hi & [Hl _] & Hc & _ & <-) ms' j slot Hi' Hj Hs.
  rewrite Hi in Hi'. apply (inj Some) in Hi'. subst ms'.
  unfold stack_of in Hj. rewrite length_fmap, length_take in Hj. lia.
Qed.

(** A push onto a mailslot with room, which leaves a NUL in the block of
    the first free slot, puts the message on top; what the mailslot
    could take before, it can still take, and the blocks in use still
    hold their NUL. *)
Lemma pushMessage_holds_top buff n i r s :
  holds r i s → Z.of_nat (length s) < MAILSLOT_STORAGE →
  0 ≤ n ≤ MESSAGE_SIZE → n ≤ Z.of_nat (length buff) →
  (∀ ms slot, instances r !! i = Some ms →
     messages ms !! Z.to_nat (messages_count ms) = Some slot →
     terminated (take (Z.to_nat n) buff ++ drop (Z.to_nat n) (content slot))) →
  ∃ r', pushMessage buff n i r = Done 0 r' [] ∧
        holds r' i (s ++ [take (Z.to_nat n) buff]) ∧
        flags r' = flags r ∧ instances_count r' = instances_count r ∧
        (∀ buff' n', takes r i buff' n' → takes r' i buff' n') ∧
        (∀ k, padded r i k → padded r' i k) ∧
        (∀ k, sealed r i k → sealed r' i k).
Proof.
  intros (ms & Hi & Ha & Hc & Hlen & Hs) Hroom Hl Hb Ht.
  assert (Hn : Z.of_nat (length s) = messages_count ms).
  { rewrite <- Hs. unfold stack_of. rewrite length_fmap, length_take.
    destruct Ha as [Ha _]. unfold MAILSLOT_STORAGE in *. lia. }
  destruct (allocated_slot ms (messages_count ms) Ha) as (slot & Hslot & Hsz);
    [lia|].
  pose proof (Ht ms slot Hi Hslot) as Hnul.
  eexists. split.
  { apply (pushMessage_room buff n i r ms slot Hi); try assumption; lia. }
  assert (Hlt : (Z.to_nat (messages_count ms) < length (messages ms))%nat)
    by (eapply lookup_lt_Some; exact Hslot).
  assert (Hlti : (i < length (instances r))%nat)
    by (eapply lookup_lt_Some; exact Hi).
  split_and!.
  - eexists. split.
    { cbn [instances]. apply list_lookup_insert_eq. exact Hlti. }
    split; [apply allocated_store; assumption || lia|].
    cbn [messages_count messages]. unfold stack_of. cbn [messages_count messages].
    replace (Z.to_nat (messages_count ms + 1))
      with (S (Z.to_nat (messages_count ms))) by lia.
    erewrite take_S_r by (apply list_lookup_insert_eq; exact Hlt).
    rewrite take_insert_ge by lia.
    split_and!; [lia | lia | |].
    + apply Forall_app. split; [exact Hlen|].
      apply Forall_singleton. cbn [len]. exact Hl.
    + rewrite fmap_app. fold (stack_of ms). rewrite Hs. f_equal.
      cbn [fmap list_fmap]. unfold payload. cbn [content len].
      f_equal. apply take_app_length'. rewrite length_take. lia.
  - unfold flags. cbn [instances].
    eapply fmap_insert_same; [exact Hi|reflexivity].
  - reflexivity.
  - intros buff' n' Ht' ms2 j slot2 Hi2 Hj Hs2. cbn [instances] in Hi2.
    rewrite list_lookup_insert_eq in Hi2 by exact Hlti. injection Hi2 as <-.
    cbn [messages_count messages] in Hj, Hs2.
    rewrite list_lookup_insert_ne in Hs2 by lia.
    apply (Ht' ms j slot2 Hi); [lia|exact Hs2].
  - intros k Hp ms2 j slot2 Hi2 Hj Hs2. cbn [instances] in Hi2.
    rewrite list_lookup_insert_eq in Hi2 by exact Hlti. injection Hi2 as <-.
    cbn [messages_count messages] in Hj, Hs2.
    rewrite list_lookup_insert_ne in Hs2 by lia.
    apply (Hp ms j slot2 Hi); [lia|exact Hs2].
  - intros k Hsl ms2 j slot2 Hi2 Hj Hs2. cbn [instances] in Hi2.
    rewrite list_lookup_insert_eq in Hi2 by exact Hlti. injection Hi2 as <-.
    cbn [messages_count messages] in Hj, Hs2.
    destruct (decide (j = Z.to_nat (messages_count ms))) as [->|Hne].
    + rewrite list_lookup_insert_eq in Hs2 by exact Hlt.
      injection Hs2 as <-. cbn [content]. exact Hnul.
    + rewrite list_lookup_insert_ne in Hs2 by lia.
      apply (Hsl ms j slot2 Hi); [lia|exact Hs2].
Qed.

Lemma pushMessage_holds buff n i r s :
  holds r i s → Z.of_nat (length s) < MAILSLOT_STORAGE →
  0 ≤ n ≤ MESSAGE_SIZE → n ≤ Z.of_nat (length buff) →
  takes r i buff n →
  ∃ r', pushMessage buff n i r = Done 0 r' [] ∧
        holds r' i (s ++ [take (Z.to_nat n) buff]) ∧
        flags r' = flags r ∧ instances_count r' = instances_count r ∧
        (∀ buff' n', takes r i buff' n' → takes r' i buff' n') ∧
        (∀ k, padded r i k → padded r' i k) ∧
        (∀ k, sealed r i k → sealed r' i k).
Proof.
  intros H0 Hroom Hn Hb Ht.
  apply pushMessage_holds_top; try assumption.
  intros ms slot Hi Hs. apply (Ht ms _ slot Hi (Nat.le_refl _) Hs).
Qed.

(** A pop from a mailslot that holds messages, the one on top in a
    block that holds a NUL, hands back the top one and takes it off. *)
Lemma getMessage_holds ubuf i r s m :
  holds r i (s ++ [m]) → (length m ≤ length ubuf)%nat →
  sealed r i (length s) →
  ∃ r', getMessage ubuf i r =
          Done (0, m ++ drop (length m) ubuf, Z.of_nat (length m)) r' [] ∧
        holds r' i s ∧
        flags r' = flags r ∧ instances_count r' = instances_count r ∧
        (∀ k, sealed r i k → sealed r' i k).
Proof.
  intros (ms & Hi & Ha & Hc & Hlen & Hs) Hb Hsl.
  assert (Hn : Z.of_nat (length s) + 1 = messages_count ms).
  { apply (f_equal length) in Hs. unfold stack_of in Hs.
    rewrite length_fmap, length_take, length_app in Hs. cbn [length] in Hs.
    destruct Ha as [Ha _]. unfold MAILSLOT_STORAGE in *. lia. }
  destruct (allocated_slot ms (messages_count ms - 1) Ha) as (msg & Hmsg & Hsz);
    [lia|].
  assert (Htake : take (Z.to_nat (messages_count ms)) (messages ms) =
                  take (Z.to_nat (messages_count ms - 1)) (messages ms) ++ [msg]).
  { replace (Z.to_nat (messages_count ms))
      with (S (Z.to_nat (messages_count ms - 1))) by lia.
    apply take_S_r. exact Hmsg. }
  unfold stack_of in Hs. rewrite Htake, fmap_app in Hs.
  apply app_inj_tail in Hs. destruct Hs as [Hs Hm]. cbn in Hm.
  rewrite Htake in Hlen. apply Forall_app in Hlen.
  destruct Hlen as [Hlen Hmsglen].
  apply (proj1 (Forall_singleton _ _)) in Hmsglen. cbn beta in Hmsglen.
  assert (Hnul : terminated (content msg)).
  { apply (Hsl ms (Z.to_nat (messages_count ms - 1)) msg Hi); [lia|exact Hmsg]. }
  assert (Hml : Z.of_nat (length m) = len msg).
  { rewrite <- Hm. unfold payload. rewrite length_take, Hsz.
    unfold MESSAGE_SIZE in *. lia. }
  eexists. split.
  { rewrite (getMessage_top ubuf i r ms msg Hi); try assumption.
    - assert (Hto : Z.to_nat (len msg) = length m) by lia.
      unfold payload in Hm. rewrite Hto in Hm |- *.
      rewrite Hm, <- Hml. reflexivity.
    - unfold MAILSLOT_STORAGE in *. lia.
    - rewrite Hsz. unfold MESSAGE_SIZE in *. lia.
    - lia. }
  split_and!.
  - eexists. split.
    { cbn [instances]. apply list_lookup_insert_eq.
      eapply lookup_lt_Some; exact Hi. }
    split; [exact Ha|].
    unfold stack_of. cbn [set_messages_count messages_count messages].
    split_and!; [lia | lia | exact Hlen | exact Hs].
  - unfold flags. cbn [instances].
    eapply fmap_insert_same; [exact Hi|reflexivity].
  - reflexivity.
  - intros k Hk ms2 j slot2 Hi2 Hj Hs2. cbn [instances] in Hi2.
    rewrite list_lookup_insert_eq in Hi2
      by (eapply lookup_lt_Some; exact Hi).
    injection Hi2 as <-.
    cbn [set_messages_count messages_count messages] in Hj, Hs2.
    apply (Hk ms j slot2 Hi); [lia|exact Hs2].
Qed.

(** C1. Pops come in stack order.  A pop from a mailslot that is not
    empty copies out the message of slot [messages_count - 1], the one
    pushed last, returns its length and then lowers [messages_count] by
    one; the block of that slot holds a NUL, so that the scan of
    [printk] stays inside it.  On a mailslot with room for three more
    messages, whose free blocks hold a NUL after their first byte,
    pushing "a", "b", "c" and popping three times hands back "c", then
    "b", then "a", and the mailslot holds what it held before. *)
Theorem pop_returns_last_pushed :
  (∀ buff i r ms msg,
     instances r !! i = Some ms →
     0 < messages_count ms < 2 ^ 31 →
     messages ms !! Z.to_nat (messages_count ms - 1) = Some msg →
     len msg ≤ Z.of_nat (length (content msg)) →
     len msg ≤ Z.of_nat (length buff) →
     terminated (content msg) →
     getMessage buff i r =
       Done (0, take (Z.to_nat (len msg)) (content msg) ++
                drop (Z.to_nat (len msg)) buff, len msg)
         {| instances :=
              <[i := set_messages_count (messages_count ms - 1) ms]>
                (instances r);
            instances_count := instances_count r |} []) ∧
  (∀ ubuf i r s,
     holds r i s →
     padded r i 1 →
     Z.of_nat (length s) + 3 ≤ MAILSLOT_STORAGE →
     (1 ≤ length ubuf)%nat →
     ∃ r',
       abc_session ubuf i r =
         Done ([0; 0; 0],
               [(0, list_byte_of_string "c" ++ drop 1 ubuf, 1);
                (0, list_byte_of_string "b" ++ drop 1 ubuf, 1);
                (0, list_byte_of_string "a" ++ drop 1 ubuf, 1)]) r' [] ∧
       holds r' i s).
Proof.
  split; [exact getMessage_top|].
  intros ubuf i r s H0 Hpad Hroom Hu. unfold MAILSLOT_STORAGE in Hroom.
  pose proof (holds_sealed_top r i s H0) as Hsl.
  destruct (pushMessage_holds (list_byte_of_string "a") 1 i r s H0)
    as (r1 & Hp1 & H1 & _ & _ & _ & Hpad1 & Hsl1);
    [unfold MAILSLOT_STORAGE, MESSAGE_SIZE; simpl; lia..
    |apply (takes_padded r i 1); [exact Hpad|simpl; lia]|].
  apply Hpad1 in Hpad. apply Hsl1 in Hsl.
  destruct (pushMessage_holds (list_byte_of_string "b") 1 i r1 _ H1)
    as (r2 & Hp2 & H2 & _ & _ & _ & Hpad2 & Hsl2);
    [rewrite ?length_app; unfold MAILSLOT_STORAGE, MESSAGE_SIZE; simpl; lia..
    |apply (takes_padded r1 i 1); [exact Hpad|simpl; lia]|].
  apply Hpad2 in Hpad. apply Hsl2 in Hsl.
  destruct (pushMessage_holds (list_byte_of_string "c") 1 i r2 _ H2)
    as (r3 & Hp3 & H3 & _ & _ & _ & _ & Hsl3);
    [rewrite ?length_app; unfold MAILSLOT_STORAGE, MESSAGE_SIZE; simpl; lia..
    |apply (takes_padded r2 i 1); [exact Hpad|simpl; lia]|].
  apply Hsl3 in Hsl.
  destruct (getMessage_holds ubuf i r3 _ _ H3)
    as (r4 & Hg1 & H4 & _ & _ & Hsl4);
    [simpl; lia
    |apply (sealed_mono r3 i (length s)); [rewrite !length_app; lia|exact Hsl]|].
  apply Hsl4 in Hsl.
  destruct (getMessage_holds ubuf i r4 _ _ H4)
    as (r5 & Hg2 & H5 & _ & _ & Hsl5);
    [simpl; lia
    |apply (sealed_mono r4 i (length s)); [rewrite !length_app; lia|exact Hsl]|].
  apply Hsl5 in Hsl.
  destruct (getMessage_holds ubuf i r5 _ _ H5) as (r6 & Hg3 & H6 & _);
    [simpl; lia|exact Hsl|].
  exists r6. split; [|exact H6]. unfold abc_session.
  rewrite bind_unfold, Hp1. rewrite bind_unfold, Hp2.
  rewrite bind_unfold, Hp3. rewrite bind_unfold, Hg1.
  rewrite bind_unfold, Hg2. rewrite bind_unfold, Hg3.
  reflexivity.
Qed.

Lemma pop_returns_last_pushed_witness :
  getMessage [x00; x00] 0 (two_messages 2)
    = Done (0, [x79; x6f], 2) (two_messages 1) [] ∧
  ∃ r',
    abc_session (replicate 4 x00) 0 booted =
      Done ([0; 0; 0],
            [(0, [x63; x00; x00; x00], 1);
             (0, [x62; x00; x00; x00], 1);
             (0, [x61; x00; x00; x00], 1)]) r' [] ∧
    holds r' 0 [].
Proof.
  destruct pop_returns_last_pushed as [H1 H2]. split.
  - rewrite (H1 [x00; x00] 0%nat (two_messages 2)
               (Mailslot 1 [Message [x68; x69; x00] 2;
                            Message [x79; x6f; x00] 2] 2)
               (Message [x79; x6f; x00] 2));
      [reflexivity | reflexivity | simpl; lia | reflexivity
      | simpl; lia | simpl; lia | vm_compute; discriminate].
  - apply (H2 (replicate 4 x00) 0%nat booted []);
      [apply holds_init; vm_compute; lia
      | apply booted_padded; vm_compute; lia
      | vm_compute; discriminate | simpl; lia].
Defined.

(** ** Open and release against the stored messages *)

Lemma holds_count r i s :
  holds r i s →
  ∃ ms, instances r !! i = Some ms ∧ allocated ms ∧
        messages_count ms = Z.of_nat (length s).
Proof.
  intros (ms & Hi & Ha & Hc & _ & <-). exists ms. split_and!; [done..|].
  unfold stack_of. rewrite length_fmap, length_take.
  destruct Ha as [Ha _]. unfold MAILSLOT_STORAGE in *. lia.
Qed.

Lemma holds_stored r r' i s :
  stored r' = stored r → holds r i s → holds r' i s.
Proof.
  intros He (ms & Hi & Ha & Hc & Hlen & Hs).
  assert (H : stored r' !! i = Some (messages ms, messages_count ms)).
  { rewrite He. unfold stored. rewrite list_lookup_fmap, Hi. reflexivity. }
  unfold stored in H. rewrite list_lookup_fmap in H.
  destruct (instances r' !! i) as [ms'|] eqn:Hi'; [|discriminate].
  injection H as Hm Hk. exists ms'. unfold allocated, stack_of in *.
  rewrite Hm, Hk. split_and!; try reflexivity; try apply Ha; try lia; assumption.
Qed.

Lemma sealed_stored r r' i k :
  stored r' = stored r → sealed r i k → sealed r' i k.
Proof.
  intros He Hsl ms' j slot Hi' Hj Hs.
  assert (H : stored r !! i = Some (messages ms', messages_count ms')).
  { rewrite <- He. unfold stored. rewrite list_lookup_fmap, Hi'. reflexivity. }
  unfold stored in H. rewrite list_lookup_fmap in H.
  destruct (instances r !! i) as [ms|] eqn:Hi; [|discriminate].
  injection H as Hm Hk.
  apply (Hsl ms j slot Hi); [rewrite Hk; exact Hj|rewrite Hm; exact Hs].
Qed.

Lemma mailslot_open_stored minor r v r' tr :
  mailslot_open minor r = Done v r' tr → stored r' = stored r.
Proof.
  intros H.
  destruct (mailslot_open_cases _ _ _ _ _ H)
    as (_ & [[_ ->]|(-> & ms & Hi & Ho & Hc & ->)]); [reflexivity|].
  unfold stored. cbn [instances].
  eapply fmap_insert_same; [exact Hi|reflexivity].
Qed.

Lemma mailslot_release_stored minor r v r' tr :
  mailslot_release minor r = Done v r' tr → stored r' = stored r.
Proof.
  intros H.
  destruct (mailslot_release_cases _ _ _ _ _ H)
    as (_ & [[_ ->]|(-> & ms & Hi & Ho & Hc & ->)]); [reflexivity|].
  unfold stored. cbn [instances].
  eapply fmap_insert_same; [exact Hi|reflexivity].
Qed.

(** C9. Open and release do not touch the stored messages.  Both return
    for every minor number of the table, and whether they succeed or
    fail, the slots (content and length) and the occupancy of every
    mailslot are what they were.  So a mailslot that held messages
    before a release holds the same ones, in the same order, after the
    next open, and a pop then hands back the one pushed last, when its
    block holds a NUL for the scan of [printk] to end at. *)
Theorem open_release_keep_messages :
  (∀ minor r,
     (minor < length (instances r))%nat →
     (∃ v r', mailslot_open minor r = Done v r' [] ∧ stored r' = stored r) ∧
     (∃ v r', mailslot_release minor r = Done v r' [] ∧ stored r' = stored r)) ∧
  (∀ minor r v r' tr,
     mailslot_open minor r = Done v r' tr ∨
     mailslot_release minor r = Done v r' tr →
     stored r' = stored r) ∧
  (∀ minor i r s m ubuf v1 r1 t1 v2 r2 t2,
     holds r i (s ++ [m]) →
     mailslot_release minor r = Done v1 r1 t1 →
     mailslot_open minor r1 = Done v2 r2 t2 →
     (length m ≤ length ubuf)%nat →
     holds r2 i (s ++ [m]) ∧
     (sealed r i (length s) →
      ∃ r3, getMessage ubuf i r2 =
              Done (0, m ++ drop (length m) ubuf, Z.of_nat (length m)) r3 [] ∧
            holds r3 i s)).
Proof.
  split_and!.
  - intros minor r Hlt. split.
    + destruct (mailslot_open_returns minor r Hlt) as (v & r' & H).
      exists v, r'. split; [exact H|]. eapply mailslot_open_stored; exact H.
    + destruct (mailslot_release_returns minor r Hlt) as (v & r' & H).
      exists v, r'. split; [exact H|]. eapply mailslot_release_stored; exact H.
  - intros minor r v r' tr [H|H].
    + eapply mailslot_open_stored; exact H.
    + eapply mailslot_release_stored; exact H.
  - intros minor i r s m ubuf v1 r1 t1 v2 r2 t2 H0 Hrel Hopen Hu.
    assert (H2 : holds r2 i (s ++ [m])).
    { apply (holds_stored r1); [eapply mailslot_open_stored; exact Hopen|].
      apply (holds_stored r); [eapply mailslot_release_stored; exact Hrel|].
      exact H0. }
    split; [exact H2|]. intros Hsl.
    assert (Hsl2 : sealed r2 i (length s)).
    { apply (sealed_stored r1); [eapply mailslot_open_stored; exact Hopen|].
      apply (sealed_stored r); [eapply mailslot_release_stored; exact Hrel|].
      exact Hsl. }
    destruct (getMessage_holds ubuf i r2 s m H2 Hu Hsl2) as (r3 & Hg & H3 & _).
    eauto.
Qed.

Lemma holds_opened_with_hi : holds opened_with_hi 0 ([] ++ [[x68; x69]]).
Proof.
  eexists. split; [reflexivity|]. split.
  { apply (allocated_store (booted_mailslot 0) 0 [x68; x69] 2 (Message (replicate 256 x00) 0));
      [apply init_module_allocated | reflexivity | simpl; lia
      | unfold MESSAGE_SIZE; lia]. }
  cbn [messages_count]. unfold MAILSLOT_STORAGE, MESSAGE_SIZE.
  split_and!; [lia | lia | | reflexivity].
  apply Forall_singleton. simpl. lia.
Qed.

Lemma sealed_opened_with_hi k : sealed opened_with_hi 0 k.
Proof.
  intros ms j slot Hi Hj Hs.
  unfold opened_with_hi in Hi. cbn [instances] in Hi.
  rewrite list_lookup_insert_eq in Hi
    by (unfold booted; rewrite init_module_length; vm_compute; lia).
  apply (inj Some) in Hi. subst ms.
  cbv beta iota delta [messages messages_count] in Hj, Hs.
  assert (j = 0%nat) as -> by lia.
  rewrite list_lookup_insert_eq in Hs
    by (unfold init_messages; rewrite length_fmap, length_seq; vm_compute; lia).
  apply (inj Some) in Hs. subst slot. vm_compute. discriminate.
Qed.

Lemma open_release_keep_messages_witness :
  (∃ v r', mailslot_open 0 opened_with_hi = Done v r' [] ∧
           stored r' = stored opened_with_hi) ∧
  (∃ v r', mailslot_release 0 opened_with_hi = Done v r' [] ∧
           stored r' = stored opened_with_hi) ∧
  ∃ r1 r2 r3,
    mailslot_release 0 opened_with_hi = Done 0 r1 [] ∧
    mailslot_open 0 r1 = Done 0 r2 [] ∧
    stored r1 = stored opened_with_hi ∧
    holds r2 0 [[x68; x69]] ∧
    getMessage [x00; x00; x00] 0 r2 = Done (0, [x68; x69; x00], 2) r3 [] ∧
    holds r3 0 [].
Proof.
  destruct open_release_keep_messages as (H1 & H2 & H3).
  assert (Hlt : (0 < length (instances opened_with_hi))%nat).
  { unfold opened_with_hi. cbn [instances].
    unfold booted. rewrite length_insert, init_module_length. vm_compute. lia. }
  destruct (H1 0%nat opened_with_hi Hlt) as [Ho Hr].
  split; [exact Ho|]. split; [exact Hr|].
  assert (Hrel : ∃ r1, mailslot_release 0 opened_with_hi = Done 0 r1 [])
    by (eexists; reflexivity).
  destruct Hrel as [r1 Hrel].
  assert (Hopen : ∃ r2, mailslot_open 0 r1 = Done 0 r2 []).
  { destruct (mailslot_release_cases _ _ _ _ _ Hrel)
      as (_ & [[Hv _]|(_ & ms & Hi & _ & _ & ->)]); [discriminate|].
    eexists. apply (mailslot_open_closed 0 _ (set_opened 0 ms));
      [|reflexivity|discriminate].
    cbn [instances]. apply list_lookup_insert_eq. exact Hlt. }
  destruct Hopen as [r2 Hopen].
  destruct (H3 0%nat 0%nat opened_with_hi [] [x68; x69] [x00; x00; x00]
              0 r1 [] 0 r2 [] holds_opened_with_hi Hrel Hopen)
    as (Hh & Hpop); [simpl; lia|].
  destruct (Hpop (sealed_opened_with_hi 0)) as (r3 & Hg & Hh3).
  exists r1, r2, r3. split_and!; try assumption.
  apply (H2 0%nat opened_with_hi 0 r1 []). right. exact Hrel.
Defined.

Lemma opened_with_hi_reached :
  run [OpOpen 0; OpWrite 0 [x68; x69] 2 false] booted
    = Done [0; 2] opened_with_hi [Acquired 0%nat; Released 0%nat].
Proof. reflexivity. Qed.

(** ** Writes as the caller sees them *)

Lemma run_app qs1 : ∀ qs2 r rcs1 r1 t1 rcs2 r2 t2,
  run qs1 r = Done rcs1 r1 t1 → run qs2 r1 = Done rcs2 r2 t2 →
  run (qs1 ++ qs2) r = Done (rcs1 ++ rcs2) r2 (t1 ++ t2).
Proof.
  induction qs1 as [|q qs1 IH]; intros qs2 r rcs1 r1 t1 rcs2 r2 t2 H1 H2.
  - cbn [run] in H1. kunfold_in H1. injection H1 as <- <- <-. exact H2.
  - destruct (run_cons_inv _ _ _ _ _ _ H1)
      as (rc & rcs' & r0 & t0 & t0' & Hs & Hr & -> & ->).
    cbn [app run]. rewrite bind_unfold, Hs, bind_unfold.
    rewrite (IH qs2 r0 rcs' r1 t0' rcs2 r2 t2 Hr H2).
    kunfold. rewrite app_nil_r, app_assoc. reflexivity.
Qed.

(** A write that the mailslot has room for stores the message and
    reports its length. *)
Lemma mailslot_write_holds buff n i r s :
  holds r i s → Z.of_nat (length s) < MAILSLOT_STORAGE →
  0 ≤ n ≤ MESSAGE_SIZE → n ≤ Z.of_nat (length buff) →
  takes r i buff n →
  ∃ r', mailslot_write i buff n false r =
          Done n r' [Acquired i; Released i] ∧
        holds r' i (s ++ [take (Z.to_nat n) buff]) ∧
        (∀ buff' n', takes r i buff' n' → takes r' i buff' n') ∧
        (∀ k, padded r i k → padded r' i k).
Proof.
  intros H0 Hroom Hn Hb Ht.
  destruct (pushMessage_holds buff n i r s H0 Hroom Hn Hb Ht)
    as (r' & Hp & H1 & _ & _ & Ht' & Hp' & _).
  destruct H0 as (ms & Hi & _).
  exists r'. split_and!; [|exact H1|exact Ht'|exact Hp'].
  rewrite mailslot_write_unfold, Hi, Hp, wrap_ssize_id; [reflexivity|].
  unfold MESSAGE_SIZE in *. lia.
Qed.

Lemma run_writes_fill k : ∀ buff n i r s,
  holds r i s → Z.of_nat (length s) + Z.of_nat k ≤ MAILSLOT_STORAGE →
  0 ≤ n ≤ MESSAGE_SIZE → n ≤ Z.of_nat (length buff) →
  takes r i buff n →
  ∃ r' tr,
    run (replicate k (OpWrite i buff n false)) r = Done (replicate k n) r' tr ∧
    holds r' i (s ++ replicate k (take (Z.to_nat n) buff)).
Proof.
  induction k as [|k IH]; intros buff n i r s H0 Hroom Hn Hb Ht.
  - exists r, []. cbn [replicate run]. rewrite app_nil_r. split; [reflexivity|exact H0].
  - destruct (mailslot_write_holds buff n i r s H0) as (r1 & Hw & H1 & Ht1 & _);
      [lia | exact Hn | exact Hb | exact Ht |].
    destruct (IH buff n i r1 _ H1) as (r' & tr & Hrun & H');
      [rewrite length_app; cbn [length]; lia | exact Hn | exact Hb
      | apply Ht1; exact Ht |].
    exists r', ([Acquired i; Released i] ++ tr).
    cbn [replicate run serve]. rewrite bind_unfold, Hw, bind_unfold, Hrun.
    kunfold. rewrite app_nil_r. split; [reflexivity|].
    rewrite <- app_assoc in H'. exact H'.
Qed.

(** C7 (what the code does).  A write to a full mailslot takes the
    guard, has its push turned down and still reports the whole length
    as accepted: [mailslot_write] drops the -1 of [pushMessage] and
    returns [len], leaving the registry as it was.  So of 257 writes to
    one mailslot of the booted module, of a message that leaves a NUL in
    each of its blocks, every one reports success, while the mailslot
    holds 256 messages. *)
Theorem write_on_full_reports_length :
  (∀ minor buff len r ms,
     instances r !! minor = Some ms →
     messages_count ms = MAILSLOT_STORAGE →
     pushMessage buff len minor r = Done (-1) r [] ∧
     mailslot_write minor buff len false r =
       Done (wrap_ssize len) r [Acquired minor; Released minor]) ∧
  (∀ junk minor buff n,
     (minor < Z.to_nat INSTANCES)%nat →
     0 < n ≤ MESSAGE_SIZE → n ≤ Z.of_nat (length buff) →
     takes (init_module junk) minor buff n →
     ∃ r tr,
       run (replicate 257 (OpWrite minor buff n false)) (init_module junk)
         = Done (replicate 257 n) r tr ∧
       holds r minor (replicate 256 (take (Z.to_nat n) buff))).
Proof.
  split.
  - intros minor buff len r ms Hi Hc.
    pose proof (pushMessage_full buff len minor r ms Hi Hc) as Hp.
    split; [exact Hp|].
    rewrite mailslot_write_unfold, Hi, Hp. reflexivity.
  - intros junk minor buff n Hm Hn Hb Ht.
    destruct (run_writes_fill 256 buff n minor (init_module junk) []
                (holds_init junk minor Hm)) as (r & tr & Hrun & H);
      [cbn [length]; unfold MAILSLOT_STORAGE; lia | lia | exact Hb
      | exact Ht |].
    cbn [app] in H.
    destruct (holds_count _ _ _ H) as (ms & Hi & _ & Hc).
    rewrite length_replicate in Hc.
    exists r, (tr ++ [Acquired minor; Released minor]). split; [|exact H].
    change 257%nat with (256 + 1)%nat. rewrite !replicate_add.
    apply (run_app _ _ _ _ r tr _ r _ Hrun).
    cbn [replicate run serve]. rewrite bind_unfold, mailslot_write_unfold, Hi.
    rewrite (pushMessage_full buff n minor r ms Hi Hc).
    rewrite wrap_ssize_id by (unfold MESSAGE_SIZE in *; lia).
    reflexivity.
Qed.

Lemma write_on_full_reports_length_witness :
  (pushMessage [x61] 1 0 filled = Done (-1) filled [] ∧
   mailslot_write 0 [x61] 1 false filled =
     Done 1 filled [Acquired 0%nat; Released 0%nat]) ∧
  ∃ r tr,
    run (replicate 257 (OpWrite 0 [x61] 1 false)) booted
      = Done (replicate 257 1) r tr ∧
    holds r 0 (replicate 256 [x61]).
Proof.
  destruct write_on_full_reports_length as [H1 H2]. split.
  - apply (H1 0%nat [x61] 1 filled
             (set_messages_count MAILSLOT_STORAGE (booted_mailslot 0)));
      reflexivity.
  - apply (H2 blank 0%nat [x61] 1);
      [vm_compute; lia | unfold MESSAGE_SIZE; lia | simpl; lia
      | apply booted_takes; vm_compute; lia].
Defined.

(** C8 (what the code does).  A write longer than [MESSAGE_SIZE] to a
    mailslot with a free slot is not turned down and not cut short:
    [pushMessage] copies [len] bytes into the slot's block of
    [MESSAGE_SIZE] bytes, and the copy runs past its end. *)
Theorem oversized_write_overruns_slot (minor : nat) (buff : list byte)
    (len : Z) (r : registry) (s : list (list byte)) :
  holds r minor s →
  Z.of_nat (length s) < MAILSLOT_STORAGE →
  MESSAGE_SIZE < len ≤ Z.of_nat (length buff) →
  pushMessage buff len minor r = Fault WriteOverrun ∧
  mailslot_write minor buff len false r = Fault WriteOverrun.
Proof.
  intros H0 Hroom Hlen.
  destruct (holds_count _ _ _ H0) as (ms & Hi & Ha & Hc).
  destruct (allocated_slot ms (messages_count ms) Ha) as (slot & Hslot & Hsz);
    [lia|].
  assert (Hp : pushMessage buff len minor r = Fault WriteOverrun).
  { unfold MESSAGE_SIZE in *.
    apply (pushMessage_overrun buff len minor r ms slot Hi); try assumption; lia. }
  split; [exact Hp|].
  rewrite mailslot_write_unfold, Hi, Hp. reflexivity.
Qed.

Lemma oversized_write_overruns_slot_witness :
  pushMessage (replicate 257 x61) 257 0 booted = Fault WriteOverrun ∧
  mailslot_write 0 (replicate 257 x61) 257 false booted = Fault WriteOverrun.
Proof.
  apply (oversized_write_overruns_slot 0 (replicate 257 x61) 257 booted []);
    [apply holds_init; vm_compute; lia | vm_compute; reflexivity
    | unfold MESSAGE_SIZE; rewrite length_replicate; lia].
Defined.

(** [filled] is a state the driver reaches: [MAILSLOT_STORAGE] pushes of
    the empty message into mailslot 0 of the booted module. *)
Lemma filled_reached :
  push_n (Z.to_nat MAILSLOT_STORAGE) [] 0 0 booted
    = Done (replicate (Z.to_nat MAILSLOT_STORAGE) 0) filled [].
Proof. reflexivity. Qed.

(** Through the file operations the order is the same: each read hands
    back the message written last, followed by a newline, and reports
    its length plus one. *)
Example abc_file_session_booted :
  ∃ r' tr,
    abc_file_session (replicate 4 x00) booted =
      Done ([1; 1; 1],
            [(2, [x63; x0a; x00; x00], 2);
             (2, [x62; x0a; x00; x00], 2);
             (2, [x61; x0a; x00; x00], 2)]) r' tr ∧
    stored r' !! 0%nat =
      Some (<[2%nat := Message (x63 :: replicate 255 x00) 1]>
              (<[1%nat := Message (x62 :: replicate 255 x00) 1]>
                 (<[0%nat := Message (x61 :: replicate 255 x00) 1]>
                    (init_messages blank 0))), 0).
Proof. eexists _, _. split; reflexivity. Qed.

(** * Further properties of the driver *)

(** ** Every way a module facility returns *)

Lemma pushMessage_cases buff n i r v r' tr :
  pushMessage buff n i r = Done v r' tr →
  tr = [] ∧
  ∃ ms, instances r !! i = Some ms ∧
    ((v = -1 ∧ r' = r ∧ messages_count ms = MAILSLOT_STORAGE) ∨
     (v = 0 ∧ messages_count ms ≠ MAILSLOT_STORAGE ∧
      0 ≤ messages_count ms ∧
      ∃ slot, messages ms !! Z.to_nat (messages_count ms) = Some slot ∧
        n ≤ Z.of_nat (length buff) ∧ n ≤ Z.of_nat (length (content slot)) ∧
        terminated (take (Z.to_nat n) buff ++
                    drop (Z.to_nat n) (content slot)) ∧
        r' = {| instances :=
                  <[i := {| opened := opened ms;
                            messages :=
                              <[Z.to_nat (messages_count ms) :=
                                  Message (take (Z.to_nat n) buff ++
                                           drop (Z.to_nat n) (content slot)) n]>
                                (messages ms);
                            messages_count := wrap_int (messages_count ms + 1) |}]>
                    (instances r);
                instances_count := instances_count r |})).
Proof.
  unfold pushMessage. kunfold. intros H.
  destruct (instances r !! i) as [ms|] eqn:Hi; [|discriminate].
  destruct (Z.eqb_spec (messages_count ms) MAILSLOT_STORAGE) as [Hc|Hc].
  - injection H as <- <- <-. split; [reflexivity|]. exists ms. auto.
  - unfold slot_at in H.
    destruct (Z.ltb_spec (messages_count ms) 0) as [Hneg|Hpos]; [discriminate|].
    destruct (messages ms !! Z.to_nat (messages_count ms)) as [slot|] eqn:Hs;
      [|discriminate].
    unfold memcpy in H.
    destruct (Z.ltb_spec (Z.of_nat (length buff)) n) as [Hb|Hb]; [discriminate|].
    destruct (Z.ltb_spec (Z.of_nat (length (content slot))) n) as [Hd|Hd];
      [discriminate|].
    destruct (printk_s _) as [u|] eqn:Hk; [|discriminate].
    apply printk_s_Ok in Hk.
    injection H as <- <- <-. split; [reflexivity|]. exists ms.
    split; [reflexivity|]. right. split_and!; try done. exists slot. auto.
Qed.

Lemma getMessage_cases ubuf i r v b n r' tr :
  getMessage ubuf i r = Done (v, b, n) r' tr →
  tr = [] ∧ v = 0 ∧
  ∃ ms, instances r !! i = Some ms ∧
    ((messages_count ms = 0 ∧ r' = r ∧ n = 19 ∧
      (20 ≤ length ubuf)%nat ∧ b = err ++ x00 :: drop 20 ubuf) ∨
     (messages_count ms ≠ 0 ∧
      ∃ msg, messages ms !! Z.to_nat (wrap_int (messages_count ms - 1)) = Some msg ∧
        0 ≤ wrap_int (messages_count ms - 1) ∧
        n = len msg ∧ terminated (content msg) ∧
        len msg ≤ Z.of_nat (length (content msg)) ∧
        len msg ≤ Z.of_nat (length ubuf) ∧
        b = take (Z.to_nat (len msg)) (content msg) ++
            drop (Z.to_nat (len msg)) ubuf ∧
        r' = {| instances :=
                  <[i := set_messages_count (wrap_int (messages_count ms - 1)) ms]>
                    (instances r);
                instances_count := instances_count r |})).
Proof.
  unfold getMessage. kunfold. intros H.
  destruct (instances r !! i) as [ms|] eqn:Hi; [|discriminate].
  destruct (Z.eqb_spec (messages_count ms) 0) as [Hc|Hc].
  - unfold strcpy, memcpy in H. simpl length in H.
    destruct (Z.ltb_spec (Z.of_nat 20) (Z.of_nat 19 + 1)); [lia|].
    destruct (Z.ltb_spec (Z.of_nat (length ubuf)) (Z.of_nat 19 + 1)) as [Hb|Hb];
      [discriminate|].
    injection H as <- <- <- <- <-. split_and!; try reflexivity.
    exists ms. split; [reflexivity|]. left. split_and!; try done. lia.
  - unfold slot_at in H.
    destruct (Z.ltb_spec (wrap_int (messages_count ms - 1)) 0) as [Hneg|Hpos];
      [discriminate|].
    destruct (messages ms !! Z.to_nat (wrap_int (messages_count ms - 1)))
      as [msg|] eqn:Hs; [|discriminate].
    destruct (printk_s _) as [u|] eqn:Hk; [|discriminate].
    apply printk_s_Ok in Hk.
    unfold memcpy in H.
    destruct (Z.ltb_spec (Z.of_nat (length (content msg))) (len msg)) as [Hd|Hd];
      [discriminate|].
    destruct (Z.ltb_spec (Z.of_nat (length ubuf)) (len msg)) as [Hb|Hb];
      [discriminate|].
    injection H as <- <- <- <- <-. split_and!; try reflexivity.
    exists ms. split; [reflexivity|]. right. split; [exact Hc|].
    exists msg. split_and!; done.
Qed.

(** ** Every way a read or a write returns *)

Lemma read_at_positive_offset_noop minor buff n off signalled r :
  0 < off →
  mailslot_read minor buff n off signalled r = Done (0, buff, off) r [].
Proof.
  intros Hoff. unfold mailslot_read.
  destruct (Z.gtb_spec off 0); [reflexivity|lia].
Qed.



Lemma mailslot_write_cases minor buff n signalled r rc r' tr :
  mailslot_write minor buff n signalled r = Done rc r' tr →
  (signalled = true ∧ rc = -1 ∧ r' = r ∧ tr = [Interrupted minor]) ∨
  (signalled = false ∧ rc = wrap_ssize n ∧
   tr = [Acquired minor; Released minor] ∧
   ∃ v, pushMessage buff n minor r = Done v r' []).
Proof.
  rewrite mailslot_write_unfold. intros H.
  destruct (instances r !! minor); [|discriminate].
  destruct signalled; [injection H as <- <- <-; auto|].
  destruct (pushMessage buff n minor r) as [v r0 t0|] eqn:Hp; [|discriminate].
  injection H as <- <- <-. right.
  destruct (pushMessage_frame _ _ _ _ _ _ _ Hp) as (-> & _). eauto 10.
Qed.

Lemma mailslot_read_cases minor buff n off signalled r rc b o r' tr :
  mailslot_read minor buff n off signalled r = Done (rc, b, o) r' tr →
  (0 < off ∧ rc = 0 ∧ b = buff ∧ o = off ∧ r' = r ∧ tr = []) ∨
  (off ≤ 0 ∧ signalled = true ∧ rc = -1 ∧ b = buff ∧ o = off ∧ r' = r ∧
   tr = [Interrupted minor]) ∨
  (off ≤ 0 ∧ signalled = false ∧ tr = [Acquired minor; Released minor] ∧
   ∃ b1 ret_len,
     getMessage buff minor r = Done (0, b1, ret_len) r' [] ∧
     strcat b1 newline = Ok b ∧
     (rc, o) = if off =? 0
               then (wrap_ssize (wrap_size (off + wrap_size (ret_len + 1))),
                     wrap_ssize (wrap_size (off + wrap_size (ret_len + 1))))
               else (0, off)).
Proof.
  destruct (Z.gtb_spec off 0) as [Hoff|Hoff].
  - unfold mailslot_read. destruct (Z.gtb_spec off 0); [|lia].
    intros Hr. injection Hr as <- <- <- <- <-. left. auto 10.
  - rewrite mailslot_read_unfold by lia. intros H. right.
    destruct (instances r !! minor); [|discriminate].
    destruct signalled; [injection H as <- <- <- <- <-; left; auto 10|].
    destruct (getMessage buff minor r) as [[[v0 b0] l0] r0 t0|] eqn:Hg;
      [|discriminate].
    destruct (strcat b0 newline) as [b2|] eqn:Hs; [|discriminate].
    destruct (getMessage_cases _ _ _ _ _ _ _ _ Hg) as (-> & -> & _).
    cbv zeta in H. injection H as Hv <- <-.
    right. split_and!; [lia | reflexivity | reflexivity |].
    exists b0, l0. split; [reflexivity|].
    destruct (off =? 0); injection Hv as <- <- <-; auto.
Qed.

(** ** Calls on one mailslot and the others *)

Lemma calls_leave_other_mailslots_lemma q r rc r' tr j :
  serve q r = Done rc r' tr →
  j ≠ minor_of q →
  instances r' !! j = instances r !! j.
Proof.
  intros H Hj. destruct q as [m|m|m buff n off sg|m buff n sg];
    cbn [minor_of] in Hj.
  - cbn [serve] in H.
    destruct (mailslot_open_cases _ _ _ _ _ H)
      as (_ & [[_ ->]|(_ & ms & _ & _ & _ & ->)]); [reflexivity|].
    cbn [instances]. apply list_lookup_insert_ne. auto.
  - cbn [serve] in H.
    destruct (mailslot_release_cases _ _ _ _ _ H)
      as (_ & [[_ ->]|(_ & ms & _ & _ & _ & ->)]); [reflexivity|].
    cbn [instances]. apply list_lookup_insert_ne. auto.
  - destruct (serve_read_inv _ _ _ _ _ _ _ _ _ H) as [[[v b] o] Hr].
    destruct (mailslot_read_cases _ _ _ _ _ _ _ _ _ _ _ Hr)
      as [(_ & _ & _ & _ & -> & _)|[(_ & _ & _ & _ & _ & -> & _)
         |(_ & _ & _ & b1 & l1 & Hg & _)]]; try reflexivity.
    destruct (getMessage_cases _ _ _ _ _ _ _ _ Hg)
      as (_ & _ & ms & _ & [(_ & -> & _)|(_ & msg & _ & _ & _ & _ & _ & _ & _ & ->)]);
      [reflexivity|].
    cbn [instances]. apply list_lookup_insert_ne. auto.
  - cbn [serve] in H.
    destruct (mailslot_write_cases _ _ _ _ _ _ _ _ H)
      as [(_ & _ & -> & _)|(_ & _ & _ & v & Hp)]; [reflexivity|].
    destruct (pushMessage_cases _ _ _ _ _ _ _ Hp)
      as (_ & ms & _ & [(_ & -> & _)|(_ & _ & _ & slot & _ & _ & _ & _ & ->)]);
      [reflexivity|].
    cbn [instances]. apply list_lookup_insert_ne. auto.
Qed.

(** X4. Index isolation: a call that returns leaves every mailslot
    other than the one its minor number addresses exactly as it was
    (flag, slots and occupancy). *)
Theorem calls_leave_other_mailslots (q : request) (r : registry) (rc : Z)
    (r' : registry) (tr : list guard_event) (j : nat) :
  serve q r = Done rc r' tr →
  j ≠ minor_of q →
  instances r' !! j = instances r !! j.
Proof. apply calls_leave_other_mailslots_lemma. Qed.

Lemma calls_leave_other_mailslots_witness :
  ∃ r' tr,
    serve (OpWrite 5 [x68; x69] 2 false) opened_with_hi = Done 2 r' tr ∧
    instances r' !! 0%nat = instances opened_with_hi !! 0%nat.
Proof.
  assert (H : ∃ r' tr,
    serve (OpWrite 5 [x68; x69] 2 false) opened_with_hi = Done 2 r' tr)
    by (eexists _, _; reflexivity).
  destruct H as (r' & tr & H). exists r', tr. split; [exact H|].
  apply (calls_leave_other_mailslots _ _ _ _ _ 0%nat H). discriminate.
Defined.

(** ** The allocation and the occupancy bounds along a run *)

Lemma sane_lookup r i ms :
  sane r → instances r !! i = Some ms → sane_mailslot ms.
Proof. intros [_ Hall] Hi. exact (Forall_lookup_1 _ _ _ _ Hall Hi). Qed.

Lemma sane_store r i ms c :
  sane r → sane_mailslot ms →
  sane {| instances := <[i := ms]> (instances r); instances_count := c |}.
Proof.
  intros [Hl Hall] Hms. split; cbn [instances].
  - rewrite length_insert. exact Hl.
  - apply Forall_insert; assumption.
Qed.

Lemma init_module_sane junk : sane (init_module junk).
Proof.
  split; [apply init_module_length|].
  unfold init_module. cbn [instances].
  apply Forall_fmap, Forall_forall. intros i _. split.
  - apply init_module_allocated.
  - cbn [messages_count]. unfold MAILSLOT_STORAGE. lia.
Qed.

Lemma pushMessage_sane buff n i r v r' tr :
  sane r → pushMessage buff n i r = Done v r' tr → sane r'.
Proof.
  intros Hs H.
  destruct (pushMessage_cases _ _ _ _ _ _ _ H)
    as (_ & ms & Hi & [(_ & -> & _)|(_ & Hc & H0 & slot & Hslot & Hb & Hd & _ & ->)]);
    [exact Hs|].
  destruct (sane_lookup r i ms Hs Hi) as [Ha Hr].
  apply sane_store; [exact Hs|]. split.
  - apply allocated_store; try assumption.
    destruct Ha as [_ Hall].
    pose proof (Forall_lookup_1 _ _ _ _ Hall Hslot) as Hsz. cbn beta in Hsz.
    unfold MESSAGE_SIZE in *. lia.
  - cbn [messages_count]. unfold MAILSLOT_STORAGE in *.
    rewrite wrap_int_id; lia.
Qed.

Lemma getMessage_sane ubuf i r v r' tr :
  sane r → getMessage ubuf i r = Done v r' tr → sane r'.
Proof.
  intros Hs H. destruct v as [[v b] n].
  destruct (getMessage_cases _ _ _ _ _ _ _ _ H)
    as (_ & _ & ms & Hi & [(_ & -> & _)|(Hc & msg & _ & _ & _ & _ & _ & _ & _ & ->)]);
    [exact Hs|].
  destruct (sane_lookup r i ms Hs Hi) as [Ha Hr].
  apply sane_store; [exact Hs|]. split; [exact Ha|].
  cbn [set_messages_count messages_count]. unfold MAILSLOT_STORAGE in *.
  rewrite wrap_int_id; lia.
Qed.

Lemma serve_sane q r rc r' tr :
  sane r → serve q r = Done rc r' tr → sane r'.
Proof.
  intros Hs H. destruct q as [m|m|m buff n off sg|m buff n sg].
  - cbn [serve] in H.
    destruct (mailslot_open_cases _ _ _ _ _ H)
      as (_ & [[_ ->]|(_ & ms & Hi & _ & _ & ->)]); [exact Hs|].
    apply sane_store; [exact Hs|]. exact (sane_lookup r m ms Hs Hi).
  - cbn [serve] in H.
    destruct (mailslot_release_cases _ _ _ _ _ H)
      as (_ & [[_ ->]|(_ & ms & Hi & _ & _ & ->)]); [exact Hs|].
    apply sane_store; [exact Hs|]. exact (sane_lookup r m ms Hs Hi).
  - destruct (serve_read_inv _ _ _ _ _ _ _ _ _ H) as [[[v b] o] Hr].
    destruct (mailslot_read_cases _ _ _ _ _ _ _ _ _ _ _ Hr)
      as [(_ & _ & _ & _ & -> & _)|[(_ & _ & _ & _ & _ & -> & _)
         |(_ & _ & _ & b1 & l1 & Hg & _)]]; try exact Hs.
    exact (getMessage_sane _ _ _ _ _ _ Hs Hg).
  - cbn [serve] in H.
    destruct (mailslot_write_cases _ _ _ _ _ _ _ _ H)
      as [(_ & _ & -> & _)|(_ & _ & _ & v & Hp)]; [exact Hs|].
    exact (pushMessage_sane _ _ _ _ _ _ _ Hs Hp).
Qed.

Lemma run_sane qs : ∀ r rcs r' tr,
  sane r → run qs r = Done rcs r' tr → sane r'.
Proof.
  induction qs as [|q qs IH]; intros r rcs r' tr Hs H.
  - cbn [run] in H. kunfold_in H. injection H as <- <- <-. exact Hs.
  - destruct (run_cons_inv _ _ _ _ _ _ H)
      as (rc & rcs' & r1 & t1 & t2 & Hq & Hr & -> & ->).
    exact (IH r1 rcs' r' t2 (serve_sane q r rc r1 t1 Hs Hq) Hr).
Qed.

(** X1. The occupancy never leaves its bounds and the slots are never
    lost: in the state [init_module] builds, and after every sequence of
    calls that returns, the table has [INSTANCES] mailslots, each with
    [MAILSLOT_STORAGE] slots of [MESSAGE_SIZE] bytes and with
    [0 <= messages_count <= MAILSLOT_STORAGE].  Every call that returns
    keeps this. *)
Theorem runs_keep_occupancy_in_bounds :
  (∀ q r rc r' tr, sane r → serve q r = Done rc r' tr → sane r') ∧
  (∀ junk qs rcs r tr,
     run qs (init_module junk) = Done rcs r tr →
     length (instances r) = Z.to_nat INSTANCES ∧
     ∀ i ms, instances r !! i = Some ms →
       0 ≤ messages_count ms ≤ MAILSLOT_STORAGE ∧
       length (messages ms) = Z.to_nat MAILSLOT_STORAGE ∧
       ∀ j slot, messages ms !! j = Some slot →
         length (content slot) = Z.to_nat MESSAGE_SIZE).
Proof.
  split; [exact serve_sane|].
  intros junk qs rcs r tr H.
  pose proof (run_sane qs _ _ _ _ (init_module_sane junk) H) as Hs.
  split; [apply Hs|]. intros i ms Hi.
  destruct (sane_lookup r i ms Hs Hi) as [[Hl Hall] Hc].
  split_and!; [lia | lia | exact Hl |].
  intros j slot Hj. exact (Forall_lookup_1 _ _ _ _ Hall Hj).
Qed.

Lemma runs_keep_occupancy_in_bounds_witness :
  ∃ r tr,
    run [OpRead 0 (replicate 32 x00) 32 0 false; OpWrite 0 [x61] 1 false;
         OpRead 0 (replicate 32 x00) 32 0 false;
         OpRead 0 (replicate 32 x00) 32 0 false] booted
      = Done [20; 1; 2; 20] r tr ∧
    ∀ i ms, instances r !! i = Some ms →
      0 ≤ messages_count ms ≤ MAILSLOT_STORAGE.
Proof.
  assert (H : ∃ r tr,
    run [OpRead 0 (replicate 32 x00) 32 0 false; OpWrite 0 [x61] 1 false;
         OpRead 0 (replicate 32 x00) 32 0 false;
         OpRead 0 (replicate 32 x00) 32 0 false] booted
      = Done [20; 1; 2; 20] r tr) by (eexists _, _; reflexivity).
  destruct H as (r & tr & H). exists r, tr. split; [exact H|].
  intros i ms Hi.
  destruct runs_keep_occupancy_in_bounds as [_ H2].
  destruct (H2 blank _ _ _ _ H) as [_ H3]. apply (H3 i ms Hi).
Defined.

(** ** Array indices stay within bounds *)

Lemma memcpy_fault dst src n f :
  memcpy dst src n = Err f → f = ReadOverrun ∨ f = WriteOverrun.
Proof.
  unfold memcpy. destruct (_ <? n); [intros [= <-]; auto|].
  destruct (_ <? n); [intros [= <-]; auto|discriminate].
Qed.

Lemma strcat_fault dst s f :
  strcat dst s = Err f → f = ReadOverrun ∨ f = WriteOverrun.
Proof.
  unfold strcat. destruct (find_nul dst); [|intros [= <-]; auto].
  destruct (_ <? _)%nat; [intros [= <-]; auto|discriminate].
Qed.

Lemma pushMessage_index_safe buff n i r ms :
  instances r !! i = Some ms → sane_mailslot ms →
  pushMessage buff n i r ≠ Fault BadIndex.
Proof.
  intros Hi [Ha Hc]. unfold pushMessage. kunfold. rewrite Hi.
  destruct (Z.eqb_spec (messages_count ms) MAILSLOT_STORAGE); [discriminate|].
  destruct (allocated_slot ms (messages_count ms) Ha) as (slot & Hs & _); [lia|].
  unfold slot_at. destruct (Z.ltb_spec (messages_count ms) 0); [lia|].
  rewrite Hs.
  destruct (memcpy (content slot) buff n) as [c|f] eqn:Hm.
  - unfold printk_s. destruct (find_nul c); discriminate.
  - destruct (memcpy_fault _ _ _ _ Hm) as [-> | ->]; discriminate.
Qed.

Lemma getMessage_index_safe ubuf i r ms :
  instances r !! i = Some ms → sane_mailslot ms →
  getMessage ubuf i r ≠ Fault BadIndex.
Proof.
  intros Hi [Ha Hc]. unfold getMessage. kunfold. rewrite Hi.
  destruct (Z.eqb_spec (messages_count ms) 0).
  - unfold strcpy.
    destruct (memcpy ubuf (err ++ [x00]) _) as [c|f] eqn:Hm; [discriminate|].
    destruct (memcpy_fault _ _ _ _ Hm) as [-> | ->]; discriminate.
  - unfold MAILSLOT_STORAGE in *. rewrite wrap_int_id by lia.
    destruct (allocated_slot ms (messages_count ms - 1) Ha) as (msg & Hs & _);
      [unfold MAILSLOT_STORAGE; lia|].
    unfold slot_at. destruct (Z.ltb_spec (messages_count ms - 1) 0); [lia|].
    rewrite Hs. unfold printk_s.
    destruct (find_nul (content msg)); [|discriminate].
    destruct (memcpy ubuf (content msg) (len msg)) as [c|f] eqn:Hm;
      [discriminate|].
    destruct (memcpy_fault _ _ _ _ Hm) as [-> | ->]; discriminate.
Qed.

Lemma serve_index_safe q r :
  sane r → (minor_of q < Z.to_nat INSTANCES)%nat →
  serve q r ≠ Fault BadIndex.
Proof.
  intros Hs Hm.
  assert (Hlt : (minor_of q < length (instances r))%nat)
    by (destruct Hs as [-> _]; exact Hm).
  destruct (lookup_lt_is_Some_2 _ _ Hlt) as [ms Hi].
  pose proof (sane_lookup r _ ms Hs Hi) as Hms.
  destruct q as [m|m|m buff n off sg|m buff n sg]; cbn [minor_of] in *;
    cbn [serve].
  - destruct (mailslot_open_returns m r Hlt) as (v & r' & ->). discriminate.
  - destruct (mailslot_release_returns m r Hlt) as (v & r' & ->). discriminate.
  - rewrite bind_unfold.
    destruct (Z.gtb_spec off 0) as [Hoff|Hoff].
    + rewrite read_at_positive_offset_noop by lia. discriminate.
    + rewrite mailslot_read_unfold, Hi by lia.
      destruct sg; [discriminate|].
      pose proof (getMessage_index_safe buff m r ms Hi Hms) as Hg.
      destruct (getMessage buff m r) as [[[v b] l] r0 t0|f]; [|congruence].
      destruct (strcat b newline) as [b2|f] eqn:Hc.
      * destruct (off =? 0); discriminate.
      * destruct (strcat_fault _ _ _ Hc) as [-> | ->]; discriminate.
  - rewrite mailslot_write_unfold, Hi.
    destruct sg; [discriminate|].
    pose proof (pushMessage_index_safe buff n m r ms Hi Hms) as Hp.
    destruct (pushMessage buff n m r) as [v r0 t0|f]; [discriminate|congruence].
Qed.

(** X2. No call indexes outside [instances] or [messages]: after every
    sequence of calls on the initialised module that returns, a further
    call with a minor number below [INSTANCES] either returns or stops
    in a copy that overruns a block; it never stops on an array index
    out of bounds. *)
Theorem reachable_calls_index_within_bounds (junk : nat → nat → message)
    (qs : list request) (rcs : list Z) (r : registry)
    (tr : list guard_event) (q : request) (f : fault) :
  run qs (init_module junk) = Done rcs r tr →
  (minor_of q < Z.to_nat INSTANCES)%nat →
  serve q r = Fault f →
  f = ReadOverrun ∨ f = WriteOverrun.
Proof.
  intros H Hm Hf.
  pose proof (run_sane qs _ _ _ _ (init_module_sane junk) H) as Hs.
  pose proof (serve_index_safe q r Hs Hm) as Hsafe.
  destruct f; auto. contradiction.
Qed.

Lemma reachable_calls_index_within_bounds_witness :
  ∃ r tr,
    run [OpWrite 7 [x61] 1 false] booted = Done [1] r tr ∧
    serve (OpRead 7 [] 0 0 false) r = Fault WriteOverrun ∧
    (WriteOverrun = ReadOverrun ∨ WriteOverrun = WriteOverrun).
Proof.
  assert (H : ∃ r tr,
    run [OpWrite 7 [x61] 1 false] booted = Done [1] r tr ∧
    serve (OpRead 7 [] 0 0 false) r = Fault WriteOverrun)
    by (eexists _, _; split; reflexivity).
  destruct H as (r & tr & H & Hf). exists r, tr. split_and!; [exact H | exact Hf |].
  apply (reachable_calls_index_within_bounds blank _ _ _ _
           (OpRead 7 [] 0 0 false) _ H); [vm_compute; lia | exact Hf].
Defined.

(** ** Writes that fit *)

Lemma pushMessage_returns buff n i r ms :
  instances r !! i = Some ms → sane_mailslot ms →
  n ≤ Z.of_nat (length buff) → n ≤ MESSAGE_SIZE →
  takes r i buff n →
  ∃ v r', pushMessage buff n i r = Done v r' [] ∧
          (v = 0 ∧ messages_count ms < MAILSLOT_STORAGE ∨
           v = -1 ∧ messages_count ms = MAILSLOT_STORAGE ∧ r' = r).
Proof.
  intros Hi [Ha Hc] Hb Hn Ht.
  destruct (Z.eq_dec (messages_count ms) MAILSLOT_STORAGE) as [Hfull|Hroom].
  - exists (-1), r. split; [apply (pushMessage_full _ _ _ _ ms Hi Hfull)|auto].
  - destruct (allocated_slot ms (messages_count ms) Ha) as (slot & Hs & Hsz);
      [lia|].
    eexists 0, _. split; [|left; split; [reflexivity|lia]].
    apply (pushMessage_room buff n i r ms slot Hi); try assumption; try lia.
    apply (Ht ms _ slot Hi (Nat.le_refl _) Hs).
Qed.

(** X3. A write that fits, of a message that holds a NUL, always goes
    through: after every sequence of calls on the initialised module
    that returns, a write to a minor number below [INSTANCES] of [len]
    bytes, with [len] at most [MESSAGE_SIZE] and at most the size of the
    caller's block and with a NUL among these [len] bytes, returns; it
    returns [len] when the guard is taken and -1 when the wait is
    interrupted, and it takes and releases the guard in the first case
    only.  (Without a NUL in the message, whether the scan of [printk]
    stays inside the block depends on what the block held before.) *)
Theorem write_within_bounds_returns (junk : nat → nat → message)
    (qs : list request) (rcs : list Z) (r : registry) (tr : list guard_event)
    (minor : nat) (buff : list byte) (n : Z) (signalled : bool) :
  run qs (init_module junk) = Done rcs r tr →
  (minor < Z.to_nat INSTANCES)%nat →
  0 ≤ n ≤ MESSAGE_SIZE → n ≤ Z.of_nat (length buff) →
  terminated (take (Z.to_nat n) buff) →
  ∃ r',
    mailslot_write minor buff n signalled r =
      Done (if signalled then -1 else n) r'
           (if signalled then [Interrupted minor]
            else [Acquired minor; Released minor]).
Proof.
  intros H Hm Hn Hb Hnul.
  pose proof (run_sane qs _ _ _ _ (init_module_sane junk) H) as Hs.
  assert (Hlt : (minor < length (instances r))%nat)
    by (destruct Hs as [-> _]; exact Hm).
  destruct (lookup_lt_is_Some_2 _ _ Hlt) as [ms Hi].
  rewrite mailslot_write_unfold, Hi.
  destruct signalled; [eauto|].
  destruct (pushMessage_returns buff n minor r ms Hi (sane_lookup r _ ms Hs Hi))
    as (v & r' & -> & _); [lia | lia | apply takes_terminated; exact Hnul|].
  exists r'. rewrite wrap_ssize_id; [reflexivity|].
  unfold MESSAGE_SIZE in *. lia.
Qed.

Lemma write_within_bounds_returns_witness :
  ∃ r tr r',
    run (replicate 3 (OpWrite 2 [x61; x62] 2 false)) booted
      = Done (replicate 3 2) r tr ∧
    mailslot_write 2 [x63; x00] 2 false r =
      Done 2 r' [Acquired 2%nat; Released 2%nat].
Proof.
  assert (H : ∃ r tr,
    run (replicate 3 (OpWrite 2 [x61; x62] 2 false)) booted
      = Done (replicate 3 2) r tr) by (eexists _, _; reflexivity).
  destruct H as (r & tr & H).
  destruct (write_within_bounds_returns blank _ _ r tr 2 [x63; x00] 2 false H)
    as [r' Hw]; [vm_compute; lia | unfold MESSAGE_SIZE; lia | simpl; lia
                | vm_compute; discriminate |].
  exists r, tr, r'. split; [exact H | exact Hw].
Defined.

(** ** The guard *)

Lemma serve_trace q r rc r' tr :
  serve q r = Done rc r' tr →
  tr = [] ∨ tr = [Interrupted (minor_of q)] ∨
  tr = [Acquired (minor_of q); Released (minor_of q)].
Proof.
  intros H. destruct q as [m|m|m buff n off sg|m buff n sg]; cbn [minor_of].
  - cbn [serve] in H. destruct (mailslot_open_cases _ _ _ _ _ H) as [-> _]. auto.
  - cbn [serve] in H. destruct (mailslot_release_cases _ _ _ _ _ H) as [-> _]. auto.
  - destruct (serve_read_inv _ _ _ _ _ _ _ _ _ H) as [[[v b] o] Hr].
    destruct (mailslot_read_cases _ _ _ _ _ _ _ _ _ _ _ Hr)
      as [(_ & _ & _ & _ & _ & ->)|[(_ & _ & _ & _ & _ & _ & ->)
         |(_ & _ & -> & _)]]; auto.
  - cbn [serve] in H.
    destruct (mailslot_write_cases _ _ _ _ _ _ _ _ H)
      as [(_ & _ & _ & ->)|(_ & _ & -> & _)]; auto.
Qed.

Lemma guard_after_app t1 t2 :
  guard_after None t1 = Some None →
  guard_after None (t1 ++ t2) = guard_after None t2.
Proof.
  generalize (@None nat) at 1 3. revert t2.
  induction t1 as [|e t1 IH]; intros t2 held H.
  - cbn in H. injection H as ->. reflexivity.
  - destruct e as [m|m|m]; cbn [guard_after app] in *.
    + destruct held; [discriminate|]. apply IH. exact H.
    + apply IH. exact H.
    + destruct held as [m'|]; [|discriminate].
      destruct (m =? m')%nat; [|discriminate]. apply IH. exact H.
Qed.

(** X5. The guard is never left taken: in the trace of every sequence
    of calls that returns, from any state, each acquisition is followed
    by the release of the same mutex before the next acquisition, and
    at the end no mutex is held.  Open and release take no guard at
    all. *)
Theorem guard_released_after_every_run :
  (∀ qs r rcs r' tr,
     run qs r = Done rcs r' tr → guard_after None tr = Some None) ∧
  (∀ minor r v r' tr,
     mailslot_open minor r = Done v r' tr ∨
     mailslot_release minor r = Done v r' tr →
     tr = []).
Proof.
  split.
  - induction qs as [|q qs IH]; intros r rcs r' tr H.
    + cbn [run] in H. kunfold_in H. injection H as <- <- <-. reflexivity.
    + destruct (run_cons_inv _ _ _ _ _ _ H)
        as (rc & rcs' & r1 & t1 & t2 & Hq & Hr & -> & ->).
      rewrite guard_after_app; [exact (IH _ _ _ _ Hr)|].
      destruct (serve_trace _ _ _ _ _ Hq) as [-> | [-> | ->]];
        cbn [guard_after]; rewrite ?Nat.eqb_refl; reflexivity.
  - intros minor r v r' tr [H|H].
    + destruct (mailslot_open_cases _ _ _ _ _ H) as [-> _]. reflexivity.
    + destruct (mailslot_release_cases _ _ _ _ _ H) as [-> _]. reflexivity.
Qed.

Lemma guard_released_after_every_run_witness :
  ∃ r tr,
    run [OpOpen 1; OpWrite 1 [x61] 1 false; OpWrite 2 [x62] 1 true;
         OpRead 1 (replicate 4 x00) 4 0 false; OpRelease 1] booted
      = Done [0; 1; -1; 2; 0] r tr ∧
    tr = [Acquired 1%nat; Released 1%nat; Interrupted 2%nat;
          Acquired 1%nat; Released 1%nat] ∧
    guard_after None tr = Some None.
Proof.
  assert (H : ∃ r tr,
    run [OpOpen 1; OpWrite 1 [x61] 1 false; OpWrite 2 [x62] 1 true;
         OpRead 1 (replicate 4 x00) 4 0 false; OpRelease 1] booted
      = Done [0; 1; -1; 2; 0] r tr ∧
    tr = [Acquired 1%nat; Released 1%nat; Interrupted 2%nat;
          Acquired 1%nat; Released 1%nat])
    by (eexists _, _; split; reflexivity).
  destruct H as (r & tr & H & Ht). exists r, tr. split_and!; [exact H | exact Ht |].
  destruct guard_released_after_every_run as [H1 _].
  exact (H1 _ _ _ _ _ H).
Defined.

(** X6. An interrupted wait has no effect: when the wait for the mutex
    is cut short by a signal, a write returns -1 and a read at offset 0
    returns -1, the registry is unchanged (nothing stored, nothing
    consumed), the caller's block and offset are as they were, and the
    mutex was not taken. *)
Theorem interrupted_call_has_no_effect (minor : nat) (buff : list byte)
    (n off : Z) (r : registry) :
  (minor < length (instances r))%nat →
  mailslot_write minor buff n true r = Done (-1) r [Interrupted minor] ∧
  (off ≤ 0 →
   mailslot_read minor buff n off true r =
     Done (-1, buff, off) r [Interrupted minor]).
Proof.
  intros Hlt. destruct (lookup_lt_is_Some_2 _ _ Hlt) as [ms Hi]. split.
  - rewrite mailslot_write_unfold, Hi. reflexivity.
  - intros Hoff. rewrite mailslot_read_unfold, Hi by exact Hoff. reflexivity.
Qed.

Lemma interrupted_call_has_no_effect_witness :
  mailslot_write 0 [x61] 1 true opened_with_hi
    = Done (-1) opened_with_hi [Interrupted 0%nat] ∧
  mailslot_read 0 [x00; x00; x00; x00] 4 0 true opened_with_hi
    = Done (-1, [x00; x00; x00; x00], 0) opened_with_hi [Interrupted 0%nat].
Proof.
  destruct (interrupted_call_has_no_effect 0 [x61] 1 0 opened_with_hi) as [H1 _].
  { unfold opened_with_hi, booted. cbn [instances].
    rewrite length_insert, init_module_length. vm_compute. lia. }
  destruct (interrupted_call_has_no_effect 0 [x00; x00; x00; x00] 4 0
              opened_with_hi) as [_ H2].
  { unfold opened_with_hi, booted. cbn [instances].
    rewrite length_insert, init_module_length. vm_compute. lia. }
  split; [exact H1 | apply H2; lia].
Defined.

(** ** Reads as the caller sees them *)

(** The top slot of a mailslot that holds messages. *)
Lemma holds_top r i s m :
  holds r i (s ++ [m]) →
  ∃ ms msg,
    instances r !! i = Some ms ∧
    0 < messages_count ms ≤ MAILSLOT_STORAGE ∧
    messages ms !! Z.to_nat (messages_count ms - 1) = Some msg ∧
    length (content msg) = Z.to_nat MESSAGE_SIZE ∧
    0 ≤ len msg ≤ MESSAGE_SIZE ∧
    len msg = Z.of_nat (length m) ∧
    take (length m) (content msg) = m.
Proof.
  intros (ms & Hi & Ha & Hc & Hlen & Hs).
  assert (Hn : Z.of_nat (length s) + 1 = messages_count ms).
  { apply (f_equal length) in Hs. unfold stack_of in Hs.
    rewrite length_fmap, length_take, length_app in Hs. cbn [length] in Hs.
    destruct Ha as [Ha _]. unfold MAILSLOT_STORAGE in *. lia. }
  destruct (allocated_slot ms (messages_count ms - 1) Ha) as (msg & Hmsg & Hsz);
    [lia|].
  assert (Htake : take (Z.to_nat (messages_count ms)) (messages ms) =
                  take (Z.to_nat (messages_count ms - 1)) (messages ms) ++ [msg]).
  { replace (Z.to_nat (messages_count ms))
      with (S (Z.to_nat (messages_count ms - 1))) by lia.
    apply take_S_r. exact Hmsg. }
  unfold stack_of in Hs. rewrite Htake, fmap_app in Hs.
  apply app_inj_tail in Hs. destruct Hs as [_ Hm]. cbn in Hm.
  rewrite Htake in Hlen. apply Forall_app in Hlen.
  destruct Hlen as [_ Hmsglen].
  apply (proj1 (Forall_singleton _ _)) in Hmsglen. cbn beta in Hmsglen.
  assert (Hml : len msg = Z.of_nat (length m)).
  { rewrite <- Hm. unfold payload. rewrite length_take, Hsz.
    unfold MESSAGE_SIZE in *. lia. }
  exists ms, msg. split_and!; try assumption; try lia.
  unfold payload in Hm. rewrite Hml, Nat2Z.id in Hm. exact Hm.
Qed.

Lemma find_nul_app m l :
  Forall (λ c, c ≠ x00) m → find_nul (m ++ x00 :: l) = Some (length m).
Proof.
  induction 1 as [|c m Hc _ IH]; [reflexivity|].
  cbn [app find_nul length].
  destruct (Byte.eqb c x00) eqn:E; [apply Byte.byte_dec_bl in E; contradiction|].
  rewrite IH. reflexivity.
Qed.

(** X7. A read at offset 0, whose wait for the guard is not
    interrupted, from a mailslot that holds messages, the one on top in
    a block that holds a NUL, hands back the message written last
    followed by a newline and a NUL, reports its length plus one as
    return value and as new offset, and takes the message off the
    mailslot; the byte count [len] the caller passed plays no part.
    This is so when the message has no NUL byte, and the caller's block
    has a NUL right after the place of the message and room for the
    newline and the NUL. *)
Theorem read_hands_back_last_written (i : nat) (r : registry)
    (s : list (list byte)) (m ubuf : list byte) (n : Z) :
  holds r i (s ++ [m]) →
  sealed r i (length s) →
  Forall (λ c, c ≠ x00) m →
  ubuf !! length m = Some x00 →
  (length m + 2 ≤ length ubuf)%nat →
  ∃ r',
    mailslot_read i ubuf n 0 false r =
      Done (Z.of_nat (length m) + 1,
            m ++ newline ++ x00 :: drop (length m + 2) ubuf,
            Z.of_nat (length m) + 1) r' [Acquired i; Released i] ∧
    holds r' i s.
Proof.
  intros H0 Hsl Hm Hnul Hroom.
  destruct (getMessage_holds ubuf i r s m H0) as (r' & Hg & H1 & _);
    [lia|exact Hsl|].
  destruct (holds_top r i s m H0) as (ms & msg & Hi & _ & _ & _ & Hlen & Hml & _).
  exists r'. split; [|exact H1].
  rewrite mailslot_read_unfold, Hi, Hg by lia.
  rewrite (drop_S ubuf x00 (length m) Hnul).
  unfold strcat. rewrite find_nul_app by exact Hm.
  change (length newline) with 1%nat.
  destruct (Nat.ltb_spec (length (m ++ x00 :: drop (S (length m)) ubuf))
              (length m + 1 + 1)) as [Hlt|Hge].
  { rewrite length_app in Hlt. cbn [length] in Hlt.
    rewrite length_drop in Hlt. lia. }
  cbn [Z.eqb]. unfold MESSAGE_SIZE in *.
  rewrite (wrap_size_id (Z.of_nat (length m) + 1)) by lia.
  rewrite wrap_size_id, wrap_ssize_id by lia.
  rewrite take_app_length.
  replace (length m + 1 + 1)%nat with (length m + 2)%nat by lia.
  rewrite drop_app_add' by reflexivity.
  cbn [drop app]. rewrite drop_drop.
  replace (S (length m) + 1)%nat with (length m + 2)%nat by lia.
  reflexivity.
Qed.

Lemma read_hands_back_last_written_witness :
  ∃ r',
    mailslot_read 0 (replicate 6 x00) 1 0 false opened_with_hi =
      Done (3, [x68; x69; x0a; x00; x00; x00], 3) r'
        [Acquired 0%nat; Released 0%nat] ∧
    holds r' 0 [].
Proof.
  apply (read_hands_back_last_written 0 opened_with_hi [] [x68; x69]
           (replicate 6 x00) 1 holds_opened_with_hi).
  - apply sealed_opened_with_hi.
  - repeat constructor; discriminate.
  - reflexivity.
  - simpl. lia.
Defined.

Lemma getMessage_overrun ubuf i r ms msg :
  instances r !! i = Some ms →
  0 < messages_count ms < 2 ^ 31 →
  messages ms !! Z.to_nat (messages_count ms - 1) = Some msg →
  len msg ≤ Z.of_nat (length (content msg)) →
  Z.of_nat (length ubuf) < len msg →
  terminated (content msg) →
  getMessage ubuf i r = Fault WriteOverrun.
Proof.
  intros Hi Hc Hs Hd Hb Hnul. unfold getMessage. kunfold. rewrite Hi.
  destruct (Z.eqb_spec (messages_count ms) 0); [lia|].
  rewrite wrap_int_id by lia.
  unfold slot_at. destruct (Z.ltb_spec (messages_count ms - 1) 0); [lia|].
  rewrite Hs, (printk_s_terminated _ Hnul). unfold memcpy.
  destruct (Z.ltb_spec (Z.of_nat (length (content msg))) (len msg)); [lia|].
  destruct (Z.ltb_spec (Z.of_nat (length ubuf)) (len msg)); [|lia].
  reflexivity.
Qed.

Lemma getMessage_empty_overrun ubuf i r ms :
  instances r !! i = Some ms → messages_count ms = 0 →
  (length ubuf < 20)%nat →
  getMessage ubuf i r = Fault WriteOverrun.
Proof.
  intros Hi Hc Hb. unfold getMessage. kunfold. rewrite Hi, Hc. simpl.
  unfold strcpy, memcpy. simpl length.
  destruct (Z.ltb_spec (Z.of_nat (length ubuf)) (Z.of_nat 19 + 1)); [|lia].
  reflexivity.
Qed.

Lemma getMessage_unterminated ubuf i r ms msg :
  instances r !! i = Some ms →
  0 < messages_count ms < 2 ^ 31 →
  messages ms !! Z.to_nat (messages_count ms - 1) = Some msg →
  ¬ terminated (content msg) →
  getMessage ubuf i r = Fault ReadOverrun.
Proof.
  intros Hi Hc Hs Hnul. unfold getMessage. kunfold. rewrite Hi.
  destruct (Z.eqb_spec (messages_count ms) 0); [lia|].
  rewrite wrap_int_id by lia.
  unfold slot_at. destruct (Z.ltb_spec (messages_count ms - 1) 0); [lia|].
  rewrite Hs, (printk_s_unterminated _ Hnul). reflexivity.
Qed.

(** X8. A read does not look at the size of the caller's block: the
    [len] argument is ignored.  At offset 0, with the wait for the
    guard not interrupted, when the mailslot is empty and the block has
    fewer than 20 bytes, the copy of the placeholder runs past the end
    of the caller's block, whatever [len] says.  When the message on
    top is longer than the caller's block, the read stops in a memory
    error as well: the copy runs past the end of the caller's block
    when the block of the message holds a NUL, and otherwise the scan
    of [printk] runs past that block before the copy is reached. *)
Theorem read_overruns_short_block (i : nat) (r : registry) (ubuf : list byte)
    (n : Z) :
  (holds r i [] → (length ubuf < 20)%nat →
   mailslot_read i ubuf n 0 false r = Fault WriteOverrun) ∧
  (∀ s m, holds r i (s ++ [m]) → (length ubuf < length m)%nat →
   mailslot_read i ubuf n 0 false r = Fault ReadOverrun ∨
   mailslot_read i ubuf n 0 false r = Fault WriteOverrun) ∧
  (∀ ms msg,
     instances r !! i = Some ms →
     0 < messages_count ms < 2 ^ 31 →
     messages ms !! Z.to_nat (messages_count ms - 1) = Some msg →
     len msg ≤ Z.of_nat (length (content msg)) →
     Z.of_nat (length ubuf) < len msg →
     (terminated (content msg) →
      mailslot_read i ubuf n 0 false r = Fault WriteOverrun) ∧
     (¬ terminated (content msg) →
      mailslot_read i ubuf n 0 false r = Fault ReadOverrun)).
Proof.
  split_and!.
  - intros H0 Hb. destruct (holds_count _ _ _ H0) as (ms & Hi & _ & Hc).
    rewrite mailslot_read_unfold, Hi by lia.
    rewrite (getMessage_empty_overrun ubuf i r ms Hi Hc Hb). reflexivity.
  - intros s m H0 Hb.
    destruct (holds_top r i s m H0)
      as (ms & msg & Hi & Hc & Hs & Hsz & Hlen & Hml & _).
    rewrite mailslot_read_unfold, Hi by lia.
    destruct (terminated_dec (content msg)) as [Hnul|Hnul].
    + right.
      rewrite (getMessage_overrun ubuf i r ms msg Hi); try assumption;
        try reflexivity; unfold MAILSLOT_STORAGE, MESSAGE_SIZE in *; lia.
    + left.
      rewrite (getMessage_unterminated ubuf i r ms msg Hi); try assumption;
        try reflexivity; unfold MAILSLOT_STORAGE in *; lia.
  - intros ms msg Hi Hc Hs Hd Hb. split; intros Hnul.
    + rewrite mailslot_read_unfold, Hi by lia.
      rewrite (getMessage_overrun ubuf i r ms msg Hi Hc Hs Hd Hb Hnul).
      reflexivity.
    + rewrite mailslot_read_unfold, Hi by lia.
      rewrite (getMessage_unterminated ubuf i r ms msg Hi Hc Hs Hnul).
      reflexivity.
Qed.

Lemma read_overruns_short_block_witness :
  mailslot_read 0 (replicate 19 x00) 19 0 false booted = Fault WriteOverrun ∧
  mailslot_read 0 [x00] 1 0 false opened_with_hi = Fault WriteOverrun ∧
  mailslot_read 0 [x00] 1 0 false (two_messages 2) = Fault WriteOverrun.
Proof.
  split_and!.
  - apply (read_overruns_short_block 0 booted (replicate 19 x00) 19).
    + apply holds_init. vm_compute. lia.
    + simpl. lia.
  - destruct (read_overruns_short_block 0 opened_with_hi [x00] 1)
      as (_ & H & _).
    destruct (H [] [x68; x69] holds_opened_with_hi) as [Hr|Hw];
      [simpl; lia | | exact Hw].
    assert (E : mailslot_read 0 [x00] 1 0 false opened_with_hi
                  = Fault WriteOverrun) by reflexivity.
    rewrite E in Hr. discriminate.
  - destruct (read_overruns_short_block 0 (two_messages 2) [x00] 1)
      as (_ & _ & H).
    apply (H (Mailslot 1 [Message [x68; x69; x00] 2;
                          Message [x79; x6f; x00] 2] 2)
             (Message [x79; x6f; x00] 2));
      [reflexivity | simpl; lia | reflexivity | simpl; lia | simpl; lia
      | vm_compute; discriminate].
Defined.

(** X9. A reading session ends after one message: when a read at
    offset 0, whose wait for the guard is not interrupted, returns, its
    value is positive, the new offset equals it, and a further read
    with that offset returns 0 without taking the guard or consuming
    anything.  The first read reports 20 on an empty mailslot and the
    length of the top message plus one otherwise. *)
Theorem read_then_read_again_is_noop (i : nat) (r : registry)
    (s : list (list byte)) (ubuf : list byte) (n rc o : Z) (b : list byte)
    (r' : registry) (tr : list guard_event) :
  holds r i s →
  mailslot_read i ubuf n 0 false r = Done (rc, b, o) r' tr →
  0 < rc ∧ o = rc ∧
  rc = match reverse s with [] => 20 | m :: _ => Z.of_nat (length m) + 1 end ∧
  ∀ ubuf2 n2 signalled,
    mailslot_read i ubuf2 n2 o signalled r' = Done (0, ubuf2, o) r' [].
Proof.
  intros H0 H.
  assert (Hrc : o = rc ∧ rc = match reverse s with
                              | [] => 20
                              | m :: _ => Z.of_nat (length m) + 1
                              end ∧ 0 < rc).
  { destruct (mailslot_read_cases _ _ _ _ _ _ _ _ _ _ _ H)
      as [(Hoff & _)|[(_ & Hsg & _)|(_ & _ & _ & b1 & l1 & Hg & _ & Hv)]];
      [lia | discriminate |].
    cbn [Z.eqb] in Hv. injection Hv as -> ->.
    destruct s as [|m0 s0 _] using rev_ind.
    - destruct (holds_count _ _ _ H0) as (ms & Hi & _ & Hc).
      destruct (getMessage_cases _ _ _ _ _ _ _ _ Hg)
        as (_ & _ & ms' & Hi' & [(_ & _ & -> & _)|(Hne & _)]).
      + split; [reflexivity|]. split; [reflexivity|]. reflexivity.
      + rewrite Hi in Hi'. injection Hi' as <-. cbn in Hc. contradiction.
    - destruct (holds_top r i s0 m0 H0)
        as (ms & msg & Hi & Hc & Hs & Hsz & Hlen & Hml & _).
      rewrite reverse_snoc.
      destruct (getMessage_cases _ _ _ _ _ _ _ _ Hg)
        as (_ & _ & ms' & Hi' & [(Hz & _)|(_ & msg' & Hs' & _ & -> & _)]);
        rewrite Hi in Hi'; injection Hi' as <-; [lia|].
      unfold MAILSLOT_STORAGE, MESSAGE_SIZE in *.
      rewrite wrap_int_id in Hs' by lia. rewrite Hs in Hs'. injection Hs' as <-.
      rewrite (wrap_size_id (len msg + 1)) by lia.
      rewrite wrap_size_id, wrap_ssize_id by lia.
      split; [reflexivity|]. split; lia. }
  destruct Hrc as (-> & Hrc & Hpos). split_and!; try assumption; try reflexivity.
  intros ubuf2 n2 sg. apply read_at_positive_offset_noop. exact Hpos.
Qed.

Lemma read_then_read_again_is_noop_witness :
  ∃ r',
    mailslot_read 0 (replicate 6 x00) 6 0 false opened_with_hi =
      Done (3, [x68; x69; x0a; x00; x00; x00], 3) r'
        [Acquired 0%nat; Released 0%nat] ∧
    mailslot_read 0 (replicate 6 x00) 6 3 false r' =
      Done (0, replicate 6 x00, 3) r' [].
Proof.
  assert (H : ∃ r',
    mailslot_read 0 (replicate 6 x00) 6 0 false opened_with_hi =
      Done (3, [x68; x69; x0a; x00; x00; x00], 3) r'
        [Acquired 0%nat; Released 0%nat]) by (eexists; reflexivity).
  destruct H as [r' H]. exists r'. split; [exact H|].
  destruct (read_then_read_again_is_noop 0 opened_with_hi _ _ _ _ _ _ _ _
              holds_opened_with_hi H) as (_ & _ & _ & H2).
  apply H2.
Defined.

(** ** Open and release as a pair *)

(** X10. Open and release undo each other.  On a mailslot whose flag is
    clear, when the counter is between 0 and [INSTANCES - 1], an open
    followed by a release of the same minor number succeeds twice and
    gives back the registry it started from.  On a mailslot whose flag
    is 1, when the counter is between 1 and [INSTANCES], so does a
    release followed by an open. *)
Theorem open_and_release_undo_each_other (minor : nat) (r : registry)
    (ms : mailslot) :
  instances r !! minor = Some ms →
  (opened ms = 0 → 0 ≤ instances_count r < INSTANCES →
   ∃ r1, mailslot_open minor r = Done 0 r1 [] ∧
         mailslot_release minor r1 = Done 0 r []) ∧
  (opened ms = 1 → 0 < instances_count r ≤ INSTANCES →
   ∃ r1, mailslot_release minor r = Done 0 r1 [] ∧
         mailslot_open minor r1 = Done 0 r []).
Proof.
  intros Hi.
  assert (Hlt : (minor < length (instances r))%nat)
    by (eapply lookup_lt_Some; exact Hi).
  unfold INSTANCES. split.
  - intros Ho Hc. eexists. split.
    { apply (mailslot_open_closed minor r ms Hi Ho). unfold INSTANCES. lia. }
    rewrite (mailslot_release_opened minor _ (set_opened 1 ms)).
    + cbn [instances instances_count].
      rewrite list_insert_insert_eq. rewrite (wrap_int_id (_ + 1)) by lia.
      rewrite wrap_int_id by lia.
      replace (set_opened 0 (set_opened 1 ms)) with ms
        by (destruct ms; cbn in *; subst; reflexivity).
      rewrite (list_insert_id _ _ _ Hi).
      replace (instances_count r + 1 - 1) with (instances_count r) by lia.
      destruct r; reflexivity.
    + cbn [instances]. apply list_lookup_insert_eq. exact Hlt.
    + cbn. discriminate.
    + cbn [instances_count]. rewrite wrap_int_id by lia. lia.
  - intros Ho Hc. eexists. split.
    { apply (mailslot_release_opened minor r ms Hi); [rewrite Ho|]; lia. }
    rewrite (mailslot_open_closed minor _ (set_opened 0 ms)).
    + cbn [instances instances_count].
      rewrite list_insert_insert_eq. rewrite (wrap_int_id (_ - 1)) by lia.
      rewrite wrap_int_id by lia.
      replace (set_opened 1 (set_opened 0 ms)) with ms
        by (destruct ms; cbn in *; subst; reflexivity).
      rewrite (list_insert_id _ _ _ Hi).
      replace (instances_count r - 1 + 1) with (instances_count r) by lia.
      destruct r; reflexivity.
    + cbn [instances]. apply list_lookup_insert_eq. exact Hlt.
    + reflexivity.
    + cbn [instances_count]. rewrite wrap_int_id by lia. unfold INSTANCES. lia.
Qed.

Lemma open_and_release_undo_each_other_witness :
  (∃ r1, mailslot_open 4 opened_with_hi = Done 0 r1 [] ∧
         mailslot_release 4 r1 = Done 0 opened_with_hi []) ∧
  (∃ r1, mailslot_release 0 opened_with_hi = Done 0 r1 [] ∧
         mailslot_open 0 r1 = Done 0 opened_with_hi []).
Proof.
  split.
  - destruct (open_and_release_undo_each_other 4 opened_with_hi
                (booted_mailslot 4)) as [H _]; [reflexivity|].
    apply H; [reflexivity | cbn [opened_with_hi instances_count]; unfold INSTANCES; lia].
  - destruct (open_and_release_undo_each_other 0 opened_with_hi
                {| opened := 1;
                   messages := <[0%nat := Message (x68 :: x69 :: replicate 254 x00) 2]>
                                 (init_messages blank 0);
                   messages_count := 1 |}) as [_ H]; [reflexivity|].
    apply H; [reflexivity | cbn [opened_with_hi instances_count]; unfold INSTANCES; lia].
Defined.

(** ** Any number of messages *)

Lemma push_all_holds i msgs : ∀ r s,
  holds r i s →
  Z.of_nat (length s) + Z.of_nat (length msgs) ≤ MAILSLOT_STORAGE →
  Forall (λ m, Z.of_nat (length m) ≤ MESSAGE_SIZE ∧
               takes r i m (Z.of_nat (length m))) msgs →
  ∃ r', push_all msgs i r = Done (replicate (length msgs) 0) r' [] ∧
        holds r' i (s ++ msgs) ∧
        (∀ k, sealed r i k → sealed r' i k).
Proof.
  induction msgs as [|m msgs IH]; intros r s H0 Hroom Hall.
  - exists r. rewrite app_nil_r. split_and!; [reflexivity|exact H0|auto].
  - apply Forall_cons_1 in Hall. destruct Hall as [[Hm Ht] Hall].
    cbn [length] in Hroom.
    destruct (pushMessage_holds m (Z.of_nat (length m)) i r s H0)
      as (r1 & Hp & H1 & _ & _ & Ht1 & _ & Hsl1);
      [lia | lia | lia | exact Ht |].
    rewrite Nat2Z.id, take_ge in H1 by lia.
    destruct (IH r1 (s ++ [m]) H1) as (r' & Hps & H' & Hsl').
    { rewrite length_app. cbn [length]. lia. }
    { revert Hall. apply List.Forall_impl. intros m' [Hm' Ht'].
      split; [exact Hm'|apply Ht1; exact Ht']. }
    exists r'. cbn [push_all length replicate].
    rewrite bind_unfold, Hp, bind_unfold, Hps. kunfold.
    split_and!; [reflexivity| |auto]. rewrite <- app_assoc in H'. exact H'.
Qed.

Lemma pop_n_holds i ubuf out : ∀ r s,
  holds r i (s ++ reverse out) →
  sealed r i (length s) →
  Forall (λ m, (length m ≤ length ubuf)%nat) out →
  ∃ r', pop_n (length out) ubuf i r = Done (popped ubuf <$> out) r' [] ∧
        holds r' i s.
Proof.
  induction out as [|m out IH]; intros r s H0 Hsl Hall.
  - exists r. rewrite app_nil_r in H0. split; [reflexivity|exact H0].
  - apply Forall_cons_1 in Hall. destruct Hall as [Hm Hall].
    rewrite reverse_cons, app_assoc in H0.
    destruct (getMessage_holds ubuf i r _ m H0 Hm)
      as (r1 & Hg & H1 & _ & _ & Hsl1).
    { apply (sealed_mono r i (length s)); [rewrite length_app; lia|exact Hsl]. }
    destruct (IH r1 s H1 (Hsl1 _ Hsl) Hall) as (r' & Hps & H').
    exists r'. cbn [pop_n length fmap list_fmap].
    rewrite bind_unfold, Hg, bind_unfold, Hps. kunfold.
    split; [reflexivity|exact H'].
Qed.

(** X11. Stack order for any number of messages: on a mailslot with
    room for all of [msgs], each at most [MESSAGE_SIZE] bytes long and
    each leaving a NUL in whichever free block of the mailslot it is
    copied to (the message holds a NUL, or the block holds one beyond
    the length of the message), pushing them in order and then popping
    as many times hands them back in the opposite order, every push and
    pop succeeding, and the mailslot then holds what it held before. *)
Theorem pops_reverse_pushes (i : nat) (r : registry) (s msgs : list (list byte))
    (ubuf : list byte) :
  holds r i s →
  Z.of_nat (length s) + Z.of_nat (length msgs) ≤ MAILSLOT_STORAGE →
  Forall (λ m, Z.of_nat (length m) ≤ MESSAGE_SIZE ∧
               takes r i m (Z.of_nat (length m)) ∧
               (length m ≤ length ubuf)%nat) msgs →
  ∃ r',
    lifo_session msgs ubuf i r =
      Done (replicate (length msgs) 0, popped ubuf <$> reverse msgs) r' [] ∧
    holds r' i s.
Proof.
  intros H0 Hroom Hall.
  destruct (push_all_holds i msgs r s H0 Hroom) as (r1 & Hp & H1 & Hsl).
  { revert Hall. apply List.Forall_impl. intros m (Hm & Ht & _). auto. }
  rewrite <- (reverse_involutive msgs) in H1 at 1.
  destruct (pop_n_holds i ubuf (reverse msgs) r1 s H1) as (r' & Hg & H').
  { apply Hsl, holds_sealed_top, H0. }
  { apply Forall_reverse. revert Hall. apply List.Forall_impl.
    intros m (_ & _ & Hm). exact Hm. }
  rewrite length_reverse in Hg.
  exists r'. split; [|exact H']. unfold lifo_session.
  rewrite bind_unfold, Hp, bind_unfold, Hg. reflexivity.
Qed.

Lemma opened_with_hi_padded k :
  (k < Z.to_nat MESSAGE_SIZE)%nat → padded opened_with_hi 0 k.
Proof.
  intros Hk ms j slot Hi Hj Hs.
  unfold opened_with_hi in Hi. cbn [instances] in Hi.
  rewrite list_lookup_insert_eq in Hi
    by (unfold booted; rewrite init_module_length; vm_compute; lia).
  apply (inj Some) in Hi. subst ms.
  cbv beta iota delta [messages messages_count] in Hj, Hs.
  rewrite list_lookup_insert_ne in Hs by lia.
  unfold init_messages in Hs. rewrite list_lookup_fmap in Hs.
  destruct (seq 0 (Z.to_nat MAILSLOT_STORAGE) !! j); [|discriminate].
  injection Hs as <-. cbn [content blank]. unfold kmalloc.
  rewrite resize_nil, drop_replicate. apply terminated_replicate. lia.
Qed.

Lemma pops_reverse_pushes_witness :
  ∃ r',
    lifo_session [[x61]; [x62; x63]; []; [x64]] (replicate 2 x00) 0
      opened_with_hi =
      Done ([0; 0; 0; 0],
            [(0, [x64; x00], 1); (0, [x00; x00], 0);
             (0, [x62; x63], 2); (0, [x61; x00], 1)]) r' [] ∧
    holds r' 0 [[x68; x69]].
Proof.
  apply (pops_reverse_pushes 0 opened_with_hi [[x68; x69]]
           [[x61]; [x62; x63]; []; [x64]] (replicate 2 x00)
           holds_opened_with_hi).
  - unfold MAILSLOT_STORAGE. simpl. lia.
  - repeat (constructor;
      [split_and!;
         [unfold MESSAGE_SIZE; simpl; lia
         | apply (takes_padded _ _ 2);
             [apply opened_with_hi_padded; vm_compute; lia | simpl; lia]
         | simpl; lia]|]).
    constructor.
Defined.

(** ** More writes than a mailslot takes *)

Lemma mailslot_write_full_holds buff n i r s :
  holds r i s → Z.of_nat (length s) = MAILSLOT_STORAGE →
  0 ≤ n ≤ MESSAGE_SIZE →
  mailslot_write i buff n false r = Done n r [Acquired i; Released i].
Proof.
  intros H0 Hfull Hn.
  destruct (holds_count _ _ _ H0) as (ms & Hi & _ & Hc).
  rewrite mailslot_write_unfold, Hi.
  rewrite (pushMessage_full buff n i r ms Hi) by lia.
  rewrite wrap_ssize_id; [reflexivity|]. unfold MESSAGE_SIZE in *. lia.
Qed.

Lemma writes_fill_lemma (i : nat) (msgs : list (list byte)) :
  ∀ (r : registry) (s : list (list byte)),
  holds r i s →
  Forall (λ m, Z.of_nat (length m) ≤ MESSAGE_SIZE ∧
               takes r i m (Z.of_nat (length m))) msgs →
  ∃ r' tr,
    run (writes i msgs) r = Done ((λ m, Z.of_nat (length m)) <$> msgs) r' tr ∧
    holds r' i (take (Z.to_nat MAILSLOT_STORAGE) (s ++ msgs)).
Proof.
  induction msgs as [|m msgs IH]; intros r s H0 Hall.
  - exists r, []. split; [reflexivity|].
    rewrite app_nil_r, take_ge; [exact H0|].
    pose proof (holds_length _ _ _ H0). lia.
  - apply Forall_cons_1 in Hall. destruct Hall as [[Hm Ht] Hall].
    pose proof (holds_length _ _ _ H0) as Hle.
    destruct (Z.eq_dec (Z.of_nat (length s)) MAILSLOT_STORAGE) as [Hfull|Hroom].
    + destruct (IH r s H0 Hall) as (r' & tr & Hrun & H').
      exists r', ([Acquired i; Released i] ++ tr).
      cbn [writes fmap list_fmap run serve]. fold (writes i msgs).
      rewrite bind_unfold.
      rewrite (mailslot_write_full_holds m _ i r s H0 Hfull) by lia.
      rewrite bind_unfold, Hrun. kunfold. rewrite app_nil_r.
      split; [reflexivity|].
      rewrite take_app_le in H' |- * by lia. exact H'.
    + destruct (mailslot_write_holds m (Z.of_nat (length m)) i r s H0)
        as (r1 & Hw & H1 & Ht1 & _); [lia | lia | lia | exact Ht |].
      rewrite Nat2Z.id, take_ge in H1 by lia.
      destruct (IH r1 (s ++ [m]) H1) as (r' & tr & Hrun & H').
      { revert Hall. apply List.Forall_impl. intros m' [Hm' Ht'].
        split; [exact Hm'|apply Ht1; exact Ht']. }
      exists r', ([Acquired i; Released i] ++ tr).
      cbn [writes fmap list_fmap run serve]. fold (writes i msgs).
      rewrite bind_unfold, Hw, bind_unfold, Hrun. kunfold. rewrite app_nil_r.
      split; [reflexivity|]. rewrite <- app_assoc in H'. exact H'.
Qed.

(** X12. Discard on full keeps the oldest messages: when messages of at
    most [MESSAGE_SIZE] bytes, each leaving a NUL in whichever free
    block of the mailslot it is copied to (the message holds a NUL, or
    the block holds one beyond the length of the message), are written
    one after the other to one mailslot and no wait for the guard is
    interrupted, every write reports its full length, but the mailslot
    ends up holding only the first ones, up to [MAILSLOT_STORAGE] in
    all; the later ones are dropped. *)
Theorem writes_beyond_capacity_are_dropped (i : nat) (msgs : list (list byte)) :
  ∀ (r : registry) (s : list (list byte)),
  holds r i s →
  Forall (λ m, Z.of_nat (length m) ≤ MESSAGE_SIZE ∧
               takes r i m (Z.of_nat (length m))) msgs →
  ∃ r' tr,
    run (writes i msgs) r = Done ((λ m, Z.of_nat (length m)) <$> msgs) r' tr ∧
    holds r' i (take (Z.to_nat MAILSLOT_STORAGE) (s ++ msgs)).
Proof. exact (writes_fill_lemma i msgs). Qed.

Lemma writes_beyond_capacity_are_dropped_witness :
  ∃ r' tr,
    run (writes 3 (replicate 256 [x61] ++ [[x62; x63]; [x64]])) booted =
      Done (replicate 256 1 ++ [2; 1]) r' tr ∧
    holds r' 3 (replicate 256 [x61]).
Proof.
  destruct (writes_beyond_capacity_are_dropped 3
              (replicate 256 [x61] ++ [[x62; x63]; [x64]]) booted [])
    as (r' & tr & Hrun & H').
  - apply holds_init. vm_compute. lia.
  - apply Forall_app. split.
    + apply Forall_replicate.
      split; [unfold MESSAGE_SIZE; simpl; lia
             | apply booted_takes; vm_compute; lia].
    + repeat (constructor;
        [split; [unfold MESSAGE_SIZE; simpl; lia
                | apply booted_takes; vm_compute; lia]|]).
      constructor.
  - exists r', tr. split.
    + rewrite Hrun. rewrite fmap_app, fmap_replicate. reflexivity.
    + rewrite app_nil_l in H'.
      rewrite take_app_length' in H' by (rewrite length_replicate; reflexivity).
      exact H'.
Defined.

(** ** The bytes the allocator left behind *)

Lemma alike_lookup r1 r2 i :
  alike r1 r2 →
  (instances r1 !! i = None ∧ instances r2 !! i = None) ∨
  ∃ a b, instances r1 !! i = Some a ∧ instances r2 !! i = Some b ∧
         mailslot_alike a b ∧ sane_mailslot a ∧ sane_mailslot b.
Proof.
  intros (Hs1 & Hs2 & _ & Hall).
  destruct (instances r1 !! i) as [a|] eqn:H1.
  - destruct (Forall2_lookup_l _ _ _ _ _ Hall H1) as (b & H2 & Hab).
    right. exists a, b. split_and!; try done.
    + exact (sane_lookup r1 i a Hs1 H1).
    + exact (sane_lookup r2 i b Hs2 H2).
  - left. split; [reflexivity|].
    assert (Hlen : length (instances r1) = length (instances r2))
      by (eapply Forall2_length; exact Hall).
    apply lookup_ge_None. rewrite <- Hlen.
    apply lookup_ge_None. exact H1.
Qed.

Lemma alike_store r1 r2 i a b c :
  alike r1 r2 → sane_mailslot a → sane_mailslot b → mailslot_alike a b →
  alike {| instances := <[i := a]> (instances r1); instances_count := c |}
        {| instances := <[i := b]> (instances r2); instances_count := c |}.
Proof.
  intros (Hs1 & Hs2 & _ & Hall) Ha Hb Hab. split_and!.
  - apply sane_store; assumption.
  - apply sane_store; assumption.
  - reflexivity.
  - cbn [instances]. apply Forall2_insert; assumption.
Qed.

Lemma outcome_alike_shown {A : Type} (o1 o2 : outcome A) :
  outcome_alike o1 o2 → shown o1 = shown o2.
Proof.
  destruct o1, o2; cbn; try contradiction.
  - intros (-> & -> & _). reflexivity.
  - intros ->. reflexivity.
Qed.

Lemma bind_alike {A B : Type} (m : kernel A) (k : A → kernel B) r1 r2 :
  outcome_alike (m r1) (m r2) →
  (∀ a r1' r2', alike r1' r2' → outcome_alike (k a r1') (k a r2')) →
  outcome_alike ((m ≫= k) r1) ((m ≫= k) r2).
Proof.
  intros Hm Hk. rewrite !bind_unfold.
  destruct (m r1) as [a1 r1' t1|f1], (m r2) as [a2 r2' t2|f2];
    cbn in Hm; try contradiction; [|exact Hm].
  destruct Hm as (-> & -> & Hr). specialize (Hk a2 r1' r2' Hr).
  destruct (k a2 r1') as [b1 r1'' u1|g1], (k a2 r2') as [b2 r2'' u2|g2];
    cbn in Hk |- *; try contradiction; [|exact Hk].
  destruct Hk as (-> & -> & Hr'). auto.
Qed.

Lemma pushMessage_alike buff n i r1 r2 :
  terminated (take (Z.to_nat n) buff) →
  alike r1 r2 →
  outcome_alike (pushMessage buff n i r1) (pushMessage buff n i r2).
Proof.
  intros Hnul Hr.
  destruct (alike_lookup r1 r2 i Hr)
    as [[H1 H2]|(a & b & H1 & H2 & (Ho & Hc & Hlive) & Ha & Hb)].
  { unfold pushMessage. kunfold. rewrite H1, H2. reflexivity. }
  destruct (Z.eq_dec (messages_count a) MAILSLOT_STORAGE) as [Hfull|Hroom].
  { rewrite (pushMessage_full buff n i r1 a H1 Hfull).
    rewrite (pushMessage_full buff n i r2 b H2) by congruence.
    cbn. auto. }
  destruct Ha as [Haa Hac]. destruct Hb as [Hba Hbc].
  destruct (allocated_slot a (messages_count a) Haa) as (sa & Hsa & Hza); [lia|].
  destruct (allocated_slot b (messages_count a) Hba) as (sb & Hsb & Hzb); [lia|].
  destruct (Z_lt_le_dec (Z.of_nat (length buff)) n) as [Hb1|Hb1].
  { unfold pushMessage. kunfold. rewrite H1, H2, <- Hc.
    destruct (Z.eqb_spec (messages_count a) MAILSLOT_STORAGE); [contradiction|].
    unfold slot_at. destruct (Z.ltb_spec (messages_count a) 0); [lia|].
    rewrite Hsa, Hsb. unfold memcpy.
    destruct (Z.ltb_spec (Z.of_nat (length buff)) n); [reflexivity|lia]. }
  destruct (Z_lt_le_dec MESSAGE_SIZE n) as [Hb2|Hb2].
  { rewrite (pushMessage_overrun buff n i r1 a sa H1) by
      (try assumption; unfold MESSAGE_SIZE in *; lia).
    rewrite (pushMessage_overrun buff n i r2 b sb H2) by
      (rewrite <- ?Hc; try assumption; unfold MESSAGE_SIZE in *; lia).
    reflexivity. }
  rewrite (pushMessage_room buff n i r1 a sa H1) by
    (try (apply terminated_app; left; exact Hnul);
     try assumption; unfold MESSAGE_SIZE in *; lia).
  rewrite (pushMessage_room buff n i r2 b sb H2) by
    (try (apply terminated_app; left; exact Hnul);
     rewrite <- ?Hc; try assumption; unfold MESSAGE_SIZE in *; lia).
  cbn [outcome_alike]. split_and!; try reflexivity.
  destruct Hr as (Hs1 & Hs2 & Hcnt & Hall). rewrite <- Hcnt, <- Hc, <- Ho.
  assert (Hlt1 : (Z.to_nat (messages_count a) < length (messages a))%nat)
    by (eapply lookup_lt_Some; exact Hsa).
  assert (Hlt2 : (Z.to_nat (messages_count a) < length (messages b))%nat)
    by (eapply lookup_lt_Some; exact Hsb).
  apply alike_store; [split_and!; assumption | | |].
  - split; [apply allocated_store; assumption|].
    cbn [messages_count]. lia.
  - split; [apply allocated_store; assumption|].
    cbn [messages_count]. lia.
  - split_and!; cbn [opened messages_count messages]; try reflexivity.
    replace (Z.to_nat (messages_count a + 1))
      with (S (Z.to_nat (messages_count a))) by lia.
    erewrite !take_S_r by (apply list_lookup_insert_eq; assumption).
    rewrite !take_insert_ge by lia.
    apply Forall2_app; [exact Hlive|].
    constructor; [|constructor].
    split; [reflexivity|]. unfold payload. cbn [content len].
    rewrite !take_app_length' by (rewrite length_take; lia).
    split_and!; [reflexivity|apply terminated_app; left; exact Hnul..].
Qed.

Lemma getMessage_alike ubuf i r1 r2 :
  alike r1 r2 →
  outcome_alike (getMessage ubuf i r1) (getMessage ubuf i r2).
Proof.
  intros Hr.
  destruct (alike_lookup r1 r2 i Hr)
    as [[H1 H2]|(a & b & H1 & H2 & (Ho & Hc & Hlive) & [Haa Hac] & [Hba Hbc])].
  { unfold getMessage. kunfold. rewrite H1, H2. reflexivity. }
  unfold getMessage. kunfold. rewrite H1, H2, <- Hc.
  destruct (Z.eqb_spec (messages_count a) 0) as [Hz|Hnz].
  { destruct (strcpy ubuf err); cbn; auto. }
  unfold MAILSLOT_STORAGE in *. rewrite wrap_int_id by lia.
  destruct (allocated_slot a (messages_count a - 1) Haa) as (ma & Hma & Hza);
    [unfold MAILSLOT_STORAGE; lia|].
  destruct (allocated_slot b (messages_count a - 1) Hba) as (mb & Hmb & Hzb);
    [unfold MAILSLOT_STORAGE; lia|].
  assert (Hab : slot_alike ma mb).
  { apply (Forall2_lookup_lr _ _ _ (Z.to_nat (messages_count a - 1)) _ _ Hlive);
      rewrite lookup_take_lt by lia; assumption. }
  destruct Hab as (Hlen & Hpay & Hn1 & Hn2).
  unfold slot_at. destruct (Z.ltb_spec (messages_count a - 1) 0); [lia|].
  rewrite Hma, Hmb, (printk_s_terminated _ Hn1), (printk_s_terminated _ Hn2).
  unfold memcpy. rewrite Hza, Hzb, <- Hlen.
  destruct (Z.of_nat (Z.to_nat MESSAGE_SIZE) <? len ma); [reflexivity|].
  destruct (Z.of_nat (length ubuf) <? len ma); [reflexivity|].
  fold (payload ma). rewrite Hlen. fold (payload mb). rewrite Hpay.
  cbn [outcome_alike]. split_and!; try reflexivity.
  destruct Hr as (Hs1 & Hs2 & Hcnt & Hall). rewrite <- Hcnt.
  apply alike_store; [split_and!; assumption | | |].
  - split; [exact Haa|]. cbn. unfold MAILSLOT_STORAGE. lia.
  - split; [exact Hba|]. cbn. unfold MAILSLOT_STORAGE. lia.
  - split_and!; cbn [set_messages_count opened messages_count messages];
      try assumption; try reflexivity.
    apply (Forall2_take _ _ _ (Z.to_nat (messages_count a - 1))) in Hlive.
    rewrite !take_take in Hlive.
    replace (Z.to_nat (messages_count a - 1) `min` Z.to_nat (messages_count a))%nat
      with (Z.to_nat (messages_count a - 1)) in Hlive by lia.
    exact Hlive.
Qed.

Lemma mailslot_open_alike minor r1 r2 :
  alike r1 r2 →
  outcome_alike (mailslot_open minor r1) (mailslot_open minor r2).
Proof.
  intros Hr. pose proof Hr as (Hs1 & Hs2 & Hcnt & Hall).
  unfold mailslot_open. kunfold. rewrite <- Hcnt.
  destruct (instances_count r1 =? INSTANCES); [cbn; auto|].
  destruct (alike_lookup r1 r2 minor Hr)
    as [[H1 H2]|(a & b & H1 & H2 & (Ho & Hc & Hlive) & Ha & Hb)];
    rewrite H1, H2; [reflexivity|]. rewrite <- Ho.
  destruct (opened a =? 0); [|cbn; auto].
  cbn [outcome_alike]. split_and!; try reflexivity.
  apply (alike_store r1 r2 minor (set_opened 1 a) (set_opened 1 b)); try assumption.
  split_and!; cbn [set_opened opened messages_count messages]; auto.
Qed.

Lemma mailslot_release_alike minor r1 r2 :
  alike r1 r2 →
  outcome_alike (mailslot_release minor r1) (mailslot_release minor r2).
Proof.
  intros Hr. pose proof Hr as (Hs1 & Hs2 & Hcnt & Hall).
  unfold mailslot_release. kunfold. rewrite <- Hcnt.
  destruct (instances_count r1 =? 0); [cbn; auto|].
  destruct (alike_lookup r1 r2 minor Hr)
    as [[H1 H2]|(a & b & H1 & H2 & (Ho & Hc & Hlive) & Ha & Hb)];
    rewrite H1, H2; [reflexivity|]. rewrite <- Ho.
  destruct (opened a =? 0); [cbn; auto|].
  cbn [outcome_alike]. split_and!; try reflexivity.
  apply (alike_store r1 r2 minor (set_opened 0 a) (set_opened 0 b)); try assumption.
  split_and!; cbn [set_opened opened messages_count messages]; auto.
Qed.

Lemma mailslot_write_alike minor buff n signalled r1 r2 :
  terminated (take (Z.to_nat n) buff) →
  alike r1 r2 →
  outcome_alike (mailslot_write minor buff n signalled r1)
                (mailslot_write minor buff n signalled r2).
Proof.
  intros Hnul Hr. rewrite !mailslot_write_unfold.
  destruct (alike_lookup r1 r2 minor Hr)
    as [[H1 H2]|(a & b & H1 & H2 & _)]; rewrite H1, H2; [reflexivity|].
  destruct signalled; [cbn; auto|].
  pose proof (pushMessage_alike buff n minor r1 r2 Hnul Hr) as Hp.
  destruct (pushMessage buff n minor r1), (pushMessage buff n minor r2);
    cbn in Hp |- *; try contradiction; [|exact Hp].
  destruct Hp as (_ & _ & Hr'). auto.
Qed.

Lemma mailslot_read_alike minor buff n off signalled r1 r2 :
  alike r1 r2 →
  outcome_alike (mailslot_read minor buff n off signalled r1)
                (mailslot_read minor buff n off signalled r2).
Proof.
  intros Hr. destruct (Z_lt_le_dec 0 off) as [Hoff|Hoff].
  { rewrite !read_at_positive_offset_noop by exact Hoff. cbn. auto. }
  rewrite !mailslot_read_unfold by exact Hoff.
  destruct (alike_lookup r1 r2 minor Hr)
    as [[H1 H2]|(a & b & H1 & H2 & _)]; rewrite H1, H2; [reflexivity|].
  destruct signalled; [cbn; auto|].
  pose proof (getMessage_alike buff minor r1 r2 Hr) as Hg.
  destruct (getMessage buff minor r1) as [[[v1 b1] l1] r1' t1|],
           (getMessage buff minor r2) as [[[v2 b2] l2] r2' t2|];
    cbn in Hg; try contradiction; [|exact Hg].
  destruct Hg as (Hv & _ & Hr'). injection Hv as -> -> ->.
  destruct (strcat b2 newline); [|reflexivity].
  cbn. auto.
Qed.

Lemma serve_alike q r1 r2 :
  nul_in_write q →
  alike r1 r2 → outcome_alike (serve q r1) (serve q r2).
Proof.
  intros Hq Hr. destruct q as [m|m|m buff n off sg|m buff n sg]; cbn [serve].
  - apply mailslot_open_alike. exact Hr.
  - apply mailslot_release_alike. exact Hr.
  - apply bind_alike; [apply mailslot_read_alike; exact Hr|].
    intros [[rc b] o] r1' r2' Hr'. cbn. auto.
  - apply mailslot_write_alike; [exact Hq|exact Hr].
Qed.

Lemma run_alike qs : ∀ r1 r2,
  Forall nul_in_write qs →
  alike r1 r2 → outcome_alike (run qs r1) (run qs r2).
Proof.
  induction qs as [|q qs IH]; intros r1 r2 Hqs Hr; cbn [run].
  - cbn. auto.
  - apply Forall_cons_1 in Hqs. destruct Hqs as [Hq Hqs].
    apply bind_alike; [apply serve_alike; [exact Hq|exact Hr]|].
    intros rc r1' r2' Hr'.
    apply bind_alike; [apply IH; [exact Hqs|exact Hr']|].
    intros rcs r1'' r2'' Hr''. cbn. auto.
Qed.

Lemma init_module_alike junk1 junk2 :
  alike (init_module junk1) (init_module junk2).
Proof.
  split_and!; try apply init_module_sane; [reflexivity|].
  unfold init_module. cbn [instances].
  apply Forall2_fmap, Forall_Forall2_diag, Forall_forall.
  intros i _. split_and!; cbn; try reflexivity. constructor.
Qed.

(** X13. With messages that hold a NUL, the bytes the allocator left in
    the message blocks do not reach the caller.  [init_module] does not
    clear the message structs and their blocks; yet when every write of
    a sequence of calls passes a message with a NUL among its [len]
    bytes, then for any two contents of that memory the sequence gives
    the same on the initialised module: the same return values and
    guard events, or the same fault.  A read after the sequence hands
    back the same bytes, return value and offset in both.  (A message
    with no NUL makes [printk] scan on into the bytes that were in the
    block before.) *)
Theorem uninitialised_memory_never_shows (junk1 junk2 : nat → nat → message)
    (qs : list request) :
  Forall nul_in_write qs →
  shown (run qs (init_module junk1)) = shown (run qs (init_module junk2)) ∧
  ∀ minor ubuf n off signalled,
    shown ((run qs ≫= λ _, mailslot_read minor ubuf n off signalled)
             (init_module junk1)) =
    shown ((run qs ≫= λ _, mailslot_read minor ubuf n off signalled)
             (init_module junk2)).
Proof.
  intros Hqs. pose proof (init_module_alike junk1 junk2) as H0. split.
  - apply outcome_alike_shown, run_alike; [exact Hqs|exact H0].
  - intros minor ubuf n off signalled.
    apply outcome_alike_shown, bind_alike;
      [apply run_alike; [exact Hqs|exact H0]|].
    intros _ r1 r2 Hr. apply mailslot_read_alike. exact Hr.
Qed.

Lemma uninitialised_memory_never_shows_witness :
  shown ((run [OpWrite 0 [x68; x69; x00] 3 false] ≫=
            λ _, mailslot_read 0 (replicate 6 x00) 6 0 false)
           (init_module (λ _ _, Message (replicate 300 xff) 77)))
  = inl ((4, [x68; x69; x0a; x00; x00; x00], 4),
         [Acquired 0%nat; Released 0%nat; Acquired 0%nat; Released 0%nat]).
Proof.
  assert (Hqs : Forall nul_in_write [OpWrite 0 [x68; x69; x00] 3 false])
    by (repeat constructor; vm_compute; discriminate).
  rewrite (proj2 (uninitialised_memory_never_shows
                    (λ _ _, Message (replicate 300 xff) 77) blank
                    [OpWrite 0 [x68; x69; x00] 3 false] Hqs)).
  reflexivity.
Defined.

(** ** Read and write against the flags *)

(** X14. Read and write never touch the bookkeeping of open and release:
    whatever a read or a write that returns did, every [opened] flag and
    [instances_count] are what they were. *)
Theorem read_write_keep_flags_and_counter (minor : nat) (buff : list byte)
    (n off : Z) (signalled : bool) (r r' : registry) (tr : list guard_event) :
  (∀ v, mailslot_read minor buff n off signalled r = Done v r' tr →
        flags r' = flags r ∧ instances_count r' = instances_count r) ∧
  (∀ v, mailslot_write minor buff n signalled r = Done v r' tr →
        flags r' = flags r ∧ instances_count r' = instances_count r).
Proof.
  split; intros v H.
  - exact (mailslot_read_frame _ _ _ _ _ _ _ _ _ H).
  - exact (mailslot_write_frame _ _ _ _ _ _ _ _ H).
Qed.

Lemma read_write_keep_flags_and_counter_witness :
  ∃ r' tr,
    mailslot_read 0 (replicate 6 x00) 6 0 false opened_with_hi
      = Done (3, [x68; x69; x0a; x00; x00; x00], 3) r' tr ∧
    flags r' = flags opened_with_hi ∧ instances_count r' = 1.
Proof.
  assert (H : ∃ r' tr,
    mailslot_read 0 (replicate 6 x00) 6 0 false opened_with_hi
      = Done (3, [x68; x69; x0a; x00; x00; x00], 3) r' tr)
    by (eexists _, _; reflexivity).
  destruct H as (r' & tr & H). exists r', tr. split; [exact H|].
  destruct (read_write_keep_flags_and_counter 0 (replicate 6 x00) 6 0 false
              opened_with_hi r' tr) as [Hr _].
  exact (Hr _ H).
Defined.

(** ** The first write after [init_module] *)

(** X15. The first write to a mailslot meets the bytes the allocator
    left.  [init_module] allocates the message blocks and never clears
    them, and [pushMessage] copies [len] bytes to the start of the
    block of slot 0 and then has [printk] scan the block as a string.
    So on the module as [init_module] leaves it, a write of [len]
    bytes, with [len] at most [MESSAGE_SIZE] and at most the size of
    the caller's block, whose wait for the guard is not interrupted,
    returns [len] and stores the message when the [len] bytes followed
    by the old bytes of the block from offset [len] on hold a NUL;
    when they hold none, the scan runs past the block. *)
Theorem first_write_meets_allocator_bytes (junk : nat → nat → message)
    (minor : nat) (buff : list byte) (n : Z) :
  (minor < Z.to_nat INSTANCES)%nat →
  0 ≤ n ≤ MESSAGE_SIZE → n ≤ Z.of_nat (length buff) →
  (terminated (take (Z.to_nat n) buff ++
               drop (Z.to_nat n)
                 (kmalloc MESSAGE_SIZE (content (junk minor 0%nat)))) →
   ∃ r', mailslot_write minor buff n false (init_module junk) =
           Done n r' [Acquired minor; Released minor] ∧
         holds r' minor [take (Z.to_nat n) buff]) ∧
  (¬ terminated (take (Z.to_nat n) buff ++
                 drop (Z.to_nat n)
                   (kmalloc MESSAGE_SIZE (content (junk minor 0%nat)))) →
   mailslot_write minor buff n false (init_module junk) = Fault ReadOverrun).
Proof.
  intros Hm Hn Hb.
  pose proof (init_module_lookup junk minor Hm) as Hi.
  assert (Hslot : init_messages junk minor !! 0%nat =
                  Some (Message (kmalloc MESSAGE_SIZE (content (junk minor 0%nat)))
                                (len (junk minor 0%nat)))) by reflexivity.
  split; intros Hnul.
  - destruct (pushMessage_holds_top buff n minor (init_module junk) []
                (holds_init junk minor Hm)) as (r' & Hp & Hh & _);
      [cbn [length]; unfold MAILSLOT_STORAGE; lia | exact Hn | exact Hb | |].
    { intros ms slot Hi' Hs. rewrite Hi in Hi'. apply (inj Some) in Hi'.
      subst ms. change (init_messages junk minor !! 0%nat = Some slot) in Hs.
      rewrite Hslot in Hs. apply (inj Some) in Hs. subst slot. exact Hnul. }
    exists r'. split; [|exact Hh].
    rewrite mailslot_write_unfold, Hi, Hp, wrap_ssize_id; [reflexivity|].
    unfold MESSAGE_SIZE in *. lia.
  - rewrite mailslot_write_unfold, Hi.
    rewrite (pushMessage_unterminated buff n minor (init_module junk) _
               (Message (kmalloc MESSAGE_SIZE (content (junk minor 0%nat)))
                        (len (junk minor 0%nat))) Hi);
      [reflexivity | cbn [messages_count]; lia
      | cbn [messages_count]; unfold MAILSLOT_STORAGE; lia
      | exact Hslot | exact Hb | | exact Hnul].
    cbn [content]. unfold kmalloc. rewrite length_resize. lia.
Qed.

Lemma first_write_meets_allocator_bytes_witness :
  (∃ r', mailslot_write 5 [x68; x69] 2 false
           (init_module (λ _ _, Message (replicate 255 xff ++ [x00]) 77)) =
           Done 2 r' [Acquired 5%nat; Released 5%nat] ∧
         holds r' 5 [[x68; x69]]) ∧
  mailslot_write 5 [x68; x69] 2 false
    (init_module (λ _ _, Message (replicate 256 xff) 77)) = Fault ReadOverrun.
Proof.
  split.
  - apply (first_write_meets_allocator_bytes
             (λ _ _, Message (replicate 255 xff ++ [x00]) 77) 5 [x68; x69] 2);
      [vm_compute; lia | unfold MESSAGE_SIZE; lia | simpl; lia
      | vm_compute; discriminate].
  - apply (first_write_meets_allocator_bytes
             (λ _ _, Message (replicate 256 xff) 77) 5 [x68; x69] 2);
      [vm_compute; lia | unfold MESSAGE_SIZE; lia | simpl; lia |].
    vm_compute. intros H. apply H. reflexivity.
Defined.

(** ** The stored messages along a run *)

Lemma holds_other r r' i s :
  instances r' !! i = instances r !! i → holds r i s → holds r' i s.
Proof.
  intros He (ms & Hi & H). exists ms. rewrite He. auto.
Qed.

Lemma sealed_other r r' i k :
  instances r' !! i = instances r !! i → sealed r i k → sealed r' i k.
Proof.
  intros He H ms j slot Hi. rewrite He in Hi. exact (H ms j slot Hi).
Qed.

(** A call that returns takes a mailslot that holds messages, each in a
    block that holds a NUL, to one that does: a write that returns has
    scanned the block it filled. *)
Lemma serve_holds q r rc r' tr i s :
  size_t_len q = true →
  serve q r = Done rc r' tr →
  holds r i s → sealed r i 0 →
  ∃ s', holds r' i s' ∧ sealed r' i 0.
Proof.
  intros Hq H H0 Hsl.
  destruct (decide (i = minor_of q)) as [->|Hne].
  2:{ pose proof (calls_leave_other_mailslots_lemma q r rc r' tr i H Hne) as He.
      exists s. split; [exact (holds_other r r' i s He H0)
                       |exact (sealed_other r r' i 0 He Hsl)]. }
  destruct q as [m|m|m buff n off sg|m buff n sg]; cbn [minor_of] in *.
  - exists s. cbn [serve] in H.
    pose proof (mailslot_open_stored _ _ _ _ _ H) as He.
    split; [exact (holds_stored r r' m s He H0)
           |exact (sealed_stored r r' m 0 He Hsl)].
  - exists s. cbn [serve] in H.
    pose proof (mailslot_release_stored _ _ _ _ _ H) as He.
    split; [exact (holds_stored r r' m s He H0)
           |exact (sealed_stored r r' m 0 He Hsl)].
  - destruct (serve_read_inv _ _ _ _ _ _ _ _ _ H) as [[[v b] o] Hr].
    destruct (mailslot_read_cases _ _ _ _ _ _ _ _ _ _ _ Hr)
      as [(_ & _ & _ & _ & -> & _)|[(_ & _ & _ & _ & _ & -> & _)
         |(_ & _ & _ & b1 & l1 & Hg & _)]]; [eauto..|].
    destruct s as [|m0 s0 _] using rev_ind.
    + destruct (holds_count _ _ _ H0) as (ms & Hi & _ & Hc).
      destruct (getMessage_cases _ _ _ _ _ _ _ _ Hg)
        as (_ & _ & ms' & Hi' & [(_ & -> & _)|(Hnz & _)]); [eauto|].
      rewrite Hi in Hi'. injection Hi' as <-. cbn in Hc. contradiction.
    + destruct (holds_top r m s0 m0 H0)
        as (ms & msg & Hi & Hc & Hs & Hsz & Hlen & Hml & _).
      destruct (getMessage_cases _ _ _ _ _ _ _ _ Hg)
        as (_ & _ & ms' & Hi' &
            [(Hz & _)|(_ & msg' & Hs' & _ & _ & _ & _ & Hb & _)]);
        rewrite Hi in Hi'; injection Hi' as <-; [lia|].
      unfold MAILSLOT_STORAGE in *.
      rewrite wrap_int_id in Hs' by lia. rewrite Hs in Hs'. injection Hs' as <-.
      destruct (getMessage_holds buff m r s0 m0 H0)
        as (r'' & Hg' & H1 & _ & _ & Hsl1);
        [lia | apply (sealed_mono r m 0); [lia|exact Hsl] |].
      assert (r'' = r') as -> by congruence. eauto.
  - cbn [serve size_t_len] in *. apply Z.leb_le in Hq.
    destruct (mailslot_write_cases _ _ _ _ _ _ _ _ H)
      as [(_ & _ & -> & _)|(_ & _ & _ & v & Hp)]; [eauto|].
    destruct (holds_count _ _ _ H0) as (ms & Hi & Ha & Hc).
    destruct (pushMessage_cases _ _ _ _ _ _ _ Hp)
      as (_ & ms' & Hi' &
          [(_ & -> & _)|(_ & Hroom & _ & slot & Hs & Hb & Hd & Hnul & _)]);
      [eauto|].
    rewrite Hi in Hi'. injection Hi' as <-.
    pose proof (holds_length _ _ _ H0) as Hle.
    assert (Hsz : length (content slot) = Z.to_nat MESSAGE_SIZE).
    { destruct Ha as [_ Hall]. exact (Forall_lookup_1 _ _ _ _ Hall Hs). }
    destruct (pushMessage_holds_top buff n m r s H0)
      as (r'' & Hp' & H1 & _ & _ & _ & _ & Hsl1);
      [unfold MESSAGE_SIZE in *; lia..| |].
    { intros ms2 slot2 Hi2 Hs2. rewrite Hi in Hi2. injection Hi2 as <-.
      rewrite Hs in Hs2. injection Hs2 as <-. exact Hnul. }
    assert (r'' = r') as -> by congruence. eauto.
Qed.

Lemma run_holds qs : ∀ r rcs r' tr i s,
  forallb size_t_len qs = true →
  run qs r = Done rcs r' tr →
  holds r i s → sealed r i 0 →
  ∃ s', holds r' i s' ∧ sealed r' i 0.
Proof.
  induction qs as [|q qs IH]; intros r rcs r' tr i s Hq H H0 Hsl.
  - cbn [run] in H. kunfold_in H. injection H as <- <- <-. eauto.
  - cbn [forallb] in Hq. apply andb_prop in Hq. destruct Hq as [Hq Hqs].
    destruct (run_cons_inv _ _ _ _ _ _ H)
      as (rc & rcs' & r1 & t1 & t2 & Hs & Hr & -> & ->).
    destruct (serve_holds q r rc r1 t1 i s Hq Hs H0 Hsl) as (s1 & H1 & Hsl1).
    exact (IH r1 rcs' r' t2 i s1 Hqs Hr H1 Hsl1).
Qed.

Lemma holds_message_lengths r i s :
  holds r i s → Forall (λ m, Z.of_nat (length m) ≤ MESSAGE_SIZE) s.
Proof.
  intros (ms & _ & [_ Hall] & _ & _ & <-). unfold stack_of.
  apply Forall_fmap, Forall_take.
  revert Hall. apply List.Forall_impl. intros m Hm. cbn.
  unfold payload. rewrite length_take, Hm. unfold MESSAGE_SIZE. lia.
Qed.

(** X16. A pop does not leave a stored block, as long as no earlier
    call left one.  The driver never compares [len] with
    [MESSAGE_SIZE]; what bounds the stored lengths is that an oversized
    write is itself a copy past the block, and what puts a NUL in every
    block in use is that the write that stored it scanned it.  So after
    every sequence of calls on the initialised module that returns (no
    copy or scan left its block; byte counts are [size_t], not
    negative), a pop from a minor number below [INSTANCES] either
    returns or stops because the caller's block is too small for the
    copy: it neither indexes out of bounds nor reads past the stored
    block.  Into a caller's block of [MESSAGE_SIZE] bytes or more it
    returns. *)
Theorem pop_after_run_stays_in_stored_block (junk : nat → nat → message)
    (qs : list request) (rcs : list Z) (r : registry) (tr : list guard_event)
    (i : nat) (ubuf : list byte) :
  forallb size_t_len qs = true →
  run qs (init_module junk) = Done rcs r tr →
  (i < Z.to_nat INSTANCES)%nat →
  ((∃ v r', getMessage ubuf i r = Done v r' []) ∨
   getMessage ubuf i r = Fault WriteOverrun) ∧
  (MESSAGE_SIZE ≤ Z.of_nat (length ubuf) →
   ∃ v r', getMessage ubuf i r = Done v r' []).
Proof.
  intros Hq H Hi.
  destruct (run_holds qs _ _ _ _ i [] Hq H (holds_init junk i Hi)
              (sealed_init junk i 0)) as (s & Hs & Hsl).
  destruct s as [|m0 s0 _] using rev_ind.
  - destruct (holds_count _ _ _ Hs) as (ms & Hms & _ & Hc). cbn [length] in Hc.
    split.
    + destruct (Nat.lt_ge_cases (length ubuf) 20) as [Hlt|Hge].
      * right. exact (getMessage_empty_overrun ubuf i r ms Hms Hc Hlt).
      * left. eexists _, _. exact (getMessage_empty ubuf i r ms Hms Hc Hge).
    + intros Hb. eexists _, _.
      apply (getMessage_empty ubuf i r ms Hms Hc).
      unfold MESSAGE_SIZE in Hb. lia.
  - pose proof (holds_message_lengths _ _ _ Hs) as Hlens.
    apply Forall_app in Hlens. destruct Hlens as [_ Hlen].
    apply (proj1 (Forall_singleton _ _)) in Hlen. cbn beta in Hlen.
    split.
    + destruct (Nat.lt_ge_cases (length ubuf) (length m0)) as [Hlt|Hge].
      * right.
        destruct (holds_top r i s0 m0 Hs)
          as (ms & msg & Hms & Hc & Hmsg & Hsz & Hl & Hml & _).
        apply (getMessage_overrun ubuf i r ms msg Hms); try assumption;
          [unfold MAILSLOT_STORAGE in *; lia
          |unfold MESSAGE_SIZE in *; lia | lia |].
        apply (Hsl ms (Z.to_nat (messages_count ms - 1)) msg Hms);
          [lia|exact Hmsg].
      * left.
        destruct (getMessage_holds ubuf i r s0 m0 Hs Hge) as (r' & Hg & _);
          [apply (sealed_mono r i 0); [lia|exact Hsl]|].
        eauto.
    + intros Hb.
      destruct (getMessage_holds ubuf i r s0 m0 Hs) as (r' & Hg & _);
        [lia | apply (sealed_mono r i 0); [lia|exact Hsl] |].
      eauto.
Qed.

Lemma pop_after_run_stays_in_stored_block_witness :
  ∃ r tr,
    run [OpWrite 9 [x61; x62; x63] 3 false; OpWrite 9 [x64] 1 false;
         OpRead 9 (replicate 8 x00) 8 0 false] booted = Done [3; 1; 2] r tr ∧
    (∃ v r', getMessage (replicate 256 x00) 9 r = Done v r' []) ∧
    getMessage [x00; x00] 9 r = Fault WriteOverrun.
Proof.
  assert (H : ∃ r tr,
    run [OpWrite 9 [x61; x62; x63] 3 false; OpWrite 9 [x64] 1 false;
         OpRead 9 (replicate 8 x00) 8 0 false] booted = Done [3; 1; 2] r tr ∧
    getMessage [x00; x00] 9 r = Fault WriteOverrun)
    by (eexists _, _; split; reflexivity).
  destruct H as (r & tr & H & Hf). exists r, tr.
  split_and!; [exact H | | exact Hf].
  apply (pop_after_run_stays_in_stored_block blank
           [OpWrite 9 [x61; x62; x63] 3 false; OpWrite 9 [x64] 1 false;
            OpRead 9 (replicate 8 x00) 8 0 false] _ r tr 9
           (replicate 256 x00) eq_refl H);
    [vm_compute; lia | rewrite length_replicate; unfold MESSAGE_SIZE; lia].
Defined.

(** ** Reads into a cleared block *)

Lemma find_nul_before m l :
  ∃ j, find_nul (m ++ x00 :: l) = Some j ∧ (j ≤ length m)%nat.
Proof.
  induction m as [|c m (j & Hj & Hle)]; [exists 0%nat; split; [reflexivity|lia]|].
  cbn [app find_nul length]. destruct (Byte.eqb c x00).
  - exists 0%nat. split; [reflexivity|lia].
  - exists (S j). rewrite Hj. split; [reflexivity|lia].
Qed.

Lemma strcat_into_cleared m k :
  (length m + 2 ≤ k)%nat →
  ∃ b, strcat (m ++ drop (length m) (replicate k x00)) newline = Ok b.
Proof.
  intros Hk. rewrite drop_replicate.
  destruct (k - length m)%nat as [|d] eqn:Hd; [lia|]. cbn [replicate].
  destruct (find_nul_before m (replicate d x00)) as (j & Hj & Hle).
  unfold strcat. rewrite Hj. change (length newline) with 1%nat.
  destruct (Nat.ltb_spec (length (m ++ x00 :: replicate d x00)) (j + 1 + 1));
    [|eauto].
  rewrite length_app in *. cbn [length] in *. rewrite length_replicate in *. lia.
Qed.

(** X17. A read into a cleared block that is large enough always goes
    through: after every sequence of calls on the initialised module
    that returns, a read at offset 0, whose wait for the guard is not
    interrupted, from a minor number below [INSTANCES] into a block of
    at least [MESSAGE_SIZE + 2] zero bytes returns; it takes and
    releases the guard, and its return value, which is also the new
    offset, lies between 1 and [MESSAGE_SIZE + 1].  The scan of
    [printk] stays inside the block on top because every block in use
    holds a NUL: the write that stored it scanned it and returned. *)
Theorem read_into_cleared_block_returns (junk : nat → nat → message)
    (qs : list request) (rcs : list Z) (r : registry) (tr : list guard_event)
    (minor k : nat) (n : Z) :
  forallb size_t_len qs = true →
  run qs (init_module junk) = Done rcs r tr →
  (minor < Z.to_nat INSTANCES)%nat →
  MESSAGE_SIZE + 2 ≤ Z.of_nat k →
  ∃ rc b r',
    mailslot_read minor (replicate k x00) n 0 false r =
      Done (rc, b, rc) r' [Acquired minor; Released minor] ∧
    0 < rc ≤ MESSAGE_SIZE + 1.
Proof.
  intros Hq H Hm Hk. unfold MESSAGE_SIZE in *.
  destruct (run_holds qs _ _ _ _ minor [] Hq H (holds_init junk minor Hm)
              (sealed_init junk minor 0)) as (s & Hs & Hsl).
  destruct s as [|m0 s0 _] using rev_ind.
  - destruct (holds_count _ _ _ Hs) as (ms & Hi & _ & Hc).
    rewrite mailslot_read_unfold, Hi by lia.
    rewrite (getMessage_empty _ minor r ms Hi Hc)
      by (rewrite length_replicate; lia).
    rewrite strcat_after_err by (rewrite length_replicate; lia).
    eexists 20, _, r. split; [reflexivity|lia].
  - pose proof (holds_message_lengths _ _ _ Hs) as Hlens.
    apply Forall_app in Hlens. destruct Hlens as [_ Hlen].
    apply (proj1 (Forall_singleton _ _)) in Hlen. cbn beta in Hlen.
    unfold MESSAGE_SIZE in Hlen.
    destruct (holds_top r minor s0 m0 Hs) as (ms & msg & Hi & _).
    destruct (getMessage_holds (replicate k x00) minor r s0 m0 Hs)
      as (r' & Hg & _);
      [rewrite length_replicate; lia
      |apply (sealed_mono r minor 0); [lia|exact Hsl]|].
    destruct (strcat_into_cleared m0 k) as [b Hb]; [lia|].
    rewrite mailslot_read_unfold, Hi, Hg, Hb by lia.
    cbn [Z.eqb].
    rewrite (wrap_size_id (Z.of_nat (length m0) + 1)) by lia.
    rewrite wrap_size_id, wrap_ssize_id by lia.
    eexists _, b, r'. split; [reflexivity|lia].
Qed.

Lemma read_into_cleared_block_returns_witness :
  ∃ r tr rc b r',
    run [OpWrite 0 [x61; x00; x62] 3 false] booted = Done [3] r tr ∧
    mailslot_read 0 (replicate 258 x00) 258 0 false r =
      Done (rc, b, rc) r' [Acquired 0%nat; Released 0%nat] ∧
    0 < rc ≤ MESSAGE_SIZE + 1.
Proof.
  assert (H : ∃ r tr,
    run [OpWrite 0 [x61; x00; x62] 3 false] booted = Done [3] r tr)
    by (eexists _, _; reflexivity).
  destruct H as (r & tr & H).
  destruct (read_into_cleared_block_returns blank
              [OpWrite 0 [x61; x00; x62] 3 false] _ r tr 0 258 258 eq_refl H)
    as (rc & b & r' & Hr & Hrc);
    [vm_compute; lia | unfold MESSAGE_SIZE; lia |].
  exists r, tr, rc, b, r'. auto.
Defined.

(** ** Messages with a NUL byte *)

(** The block of a message that has a NUL holds a NUL. *)
Lemma holds_sealed_by_nul r i s m :
  holds r i (s ++ [m]) → x00 ∈ m → sealed r i (length s).
Proof.
  intros H0 Hin ms' j slot Hi' Hj Hs'.
  destruct (holds_count _ _ _ H0) as (ms0 & Hi0 & _ & Hc).
  destruct (holds_top r i s m H0) as (ms & msg & Hi & _ & Hs & _ & _ & _ & Hm).
  rewrite Hi in Hi'. apply (inj Some) in Hi'. subst ms'.
  rewrite Hi in Hi0. apply (inj Some) in Hi0. subst ms0.
  rewrite length_app in Hc. cbn [length] in Hc.
  assert (j = Z.to_nat (messages_count ms - 1)) as -> by lia.
  rewrite Hs in Hs'. apply (inj Some) in Hs'. subst slot.
  apply terminated_elem_of.
  rewrite <- (take_drop (length m) (content msg)), Hm.
  apply elem_of_app. left. exact Hin.
Qed.

(** X18. A read is not safe for messages that contain a NUL byte: with
    the wait for the guard not interrupted, the newline and the closing
    NUL are written from the first NUL of the message on, so the NUL
    and the byte after it are overwritten in the block handed back,
    while the return value still reports the whole length plus one. *)
Theorem read_clobbers_message_after_nul (i : nat) (r : registry)
    (s : list (list byte)) (pre post ubuf : list byte) (p : byte) (n : Z) :
  holds r i (s ++ [pre ++ x00 :: p :: post]) →
  Forall (λ c, c ≠ x00) pre →
  (length (pre ++ x00 :: p :: post) ≤ length ubuf)%nat →
  ∃ r',
    mailslot_read i ubuf n 0 false r =
      Done (Z.of_nat (length (pre ++ x00 :: p :: post)) + 1,
            pre ++ newline ++ x00 :: post ++
              drop (length (pre ++ x00 :: p :: post)) ubuf,
            Z.of_nat (length (pre ++ x00 :: p :: post)) + 1) r'
        [Acquired i; Released i] ∧
    holds r' i s.
Proof.
  intros H0 Hpre Hu. set (m := pre ++ x00 :: p :: post) in *.
  assert (Hsl : sealed r i (length s)).
  { apply (holds_sealed_by_nul r i s m H0). subst m.
    apply elem_of_app. right. apply elem_of_cons. left. reflexivity. }
  destruct (getMessage_holds ubuf i r s m H0 Hu Hsl) as (r' & Hg & H1 & _).
  destruct (holds_top r i s m H0) as (ms & msg & Hi & _ & _ & _ & Hlen & Hml & _).
  exists r'. split; [|exact H1].
  rewrite mailslot_read_unfold, Hi, Hg by lia.
  assert (Hb : m ++ drop (length m) ubuf =
               pre ++ x00 :: (p :: post ++ drop (length m) ubuf)).
  { subst m. rewrite <- app_assoc. reflexivity. }
  rewrite Hb. unfold strcat. rewrite find_nul_app by exact Hpre.
  change (length newline) with 1%nat.
  destruct (Nat.ltb_spec
              (length (pre ++ x00 :: p :: post ++ drop (length m) ubuf))
              (length pre + 1 + 1)) as [Hlt|Hge].
  { rewrite length_app in Hlt. cbn [length] in Hlt. lia. }
  cbn [Z.eqb]. unfold MESSAGE_SIZE in *.
  rewrite (wrap_size_id (Z.of_nat (length m) + 1)) by lia.
  rewrite wrap_size_id, wrap_ssize_id by lia.
  rewrite take_app_length.
  replace (length pre + 1 + 1)%nat with (length pre + 2)%nat by lia.
  rewrite drop_app_add' by reflexivity. reflexivity.
Qed.

Lemma read_clobbers_message_after_nul_witness :
  ∃ r tr r',
    run [OpWrite 0 [x61; x00; x62; x63] 4 false] booted = Done [4] r tr ∧
    holds r 0 ([] ++ [[x61] ++ x00 :: x62 :: [x63]]) ∧
    mailslot_read 0 (replicate 8 x00) 8 0 false r =
      Done (5, [x61; x0a; x00; x63; x00; x00; x00; x00], 5) r'
        [Acquired 0%nat; Released 0%nat].
Proof.
  destruct (writes_fill_lemma 0 [[x61; x00; x62; x63]] booted [])
    as (r & tr & Hrun & Hh).
  { apply holds_init. vm_compute. lia. }
  { constructor; [|constructor].
    split; [unfold MESSAGE_SIZE; simpl; lia|].
    apply takes_terminated. vm_compute. discriminate. }
  destruct (read_clobbers_message_after_nul 0 r [] [x61] [x63]
              (replicate 8 x00) x62 8 Hh) as (r' & Hr & _).
  { repeat constructor. discriminate. }
  { simpl. lia. }
  exists r, tr, r'. split_and!; [exact Hrun | exact Hh | exact Hr].
Defined.
